(** * Email-link authentication routes (routes/auth.js)

    A shallow embedding of the Express handlers that [exports.configure]
    installs: the session-user middleware, the session and CSRF queries,
    token issuance, token redemption and sign-out.  Handlers are written in
    a small monad over the server's observable state; the storage and mail
    calls complete through callbacks that an event loop runs after the
    handler has returned, as they do under Node. *)

From Stdlib Require Import String Ascii NArith ZArith Bool Lia List.
Import ListNotations.

(** ** JavaScript values *)

Module JS.

(** A JavaScript string is a sequence of UTF-16 code units. *)
Definition jsstring := list N.

(** Source literals are ASCII. *)
Definition lit (s : string) : jsstring :=
  map N_of_ascii (list_ascii_of_string s).
Arguments lit s%_string : simpl never.

Fixpoint str_eqb (a b : jsstring) : bool :=
  match a, b with
  | [], [] => true
  | x :: a', y :: b' => N.eqb x y && str_eqb a' b'
  | _, _ => false
  end.

#[local] Unset Elimination Schemes.
Inductive value :=
| Undefined
| Null
| Bool (b : bool)
| Num (z : Z)
| Str (s : jsstring)
| Obj (fields : list (string * value)).
#[local] Set Elimination Schemes.

(** ToBoolean. *)
Definition truthy (v : value) : bool :=
  match v with
  | Undefined | Null => false
  | Bool b => b
  | Num z => negb (Z.eqb z 0)
  | Str s => match s with [] => false | _ :: _ => true end
  | Obj _ => true
  end.

(** [a || b] *)
Definition or (a b : value) : value := if truthy a then a else b.

(** Own property names of an object literal, in order. *)
Definition keys (v : value) : list string :=
  match v with
  | Obj fields => map fst fields
  | _ => []
  end.

Fixpoint assoc (k : string) (fields : list (string * value)) : value :=
  match fields with
  | [] => Undefined
  | (k', v) :: rest => if String.eqb k k' then v else assoc k rest
  end.

(** [v.k] on an object; [undefined] for a missing property. *)
Definition prop (k : string) (v : value) : value :=
  match v with
  | Obj fields => assoc k fields
  | _ => Undefined
  end.

(** WhiteSpace and LineTerminator code points, the set that
    [String.prototype.trim] strips. *)
Definition is_space (c : N) : bool :=
  (N.leb 9 c && N.leb c 13)
  || N.eqb c 32 || N.eqb c 160 || N.eqb c 5760
  || (N.leb 8192 c && N.leb c 8202)
  || N.eqb c 8232 || N.eqb c 8233 || N.eqb c 8239 || N.eqb c 8287
  || N.eqb c 12288 || N.eqb c 65279.

Fixpoint trim_start (s : jsstring) : jsstring :=
  match s with
  | [] => []
  | c :: s' => if is_space c then trim_start s' else s
  end.

Definition trim (s : jsstring) : jsstring :=
  rev (trim_start (rev (trim_start s))).

(** [s.split(sep)] for a one-character separator. *)
Fixpoint split (sep : N) (s : jsstring) : list jsstring :=
  match s with
  | [] => [[]]
  | c :: s' =>
      if N.eqb c sep then [] :: split sep s'
      else match split sep s' with
           | h :: t => (c :: h) :: t
           | [] => [[c]]
           end
  end.

(** ToString of a value that is a string or [undefined], as it is used
    by [+] with a string operand. *)
Definition to_string (o : option jsstring) : jsstring :=
  match o with
  | Some s => s
  | None => lit "undefined"
  end.

(** [o || d] where [o] is a string or [undefined]: the empty string is
    falsy. *)
Definition str_or (o : option jsstring) (d : jsstring) : jsstring :=
  match o with
  | Some ((_ :: _) as s) => s
  | _ => d
  end.

Inductive error :=
| TypeError (what : string)   (* property read or call on undefined *)
| Failure (code : N).         (* error object of a storage or mail call *)

End JS.
Import JS.

(** ** User records *)

(** An identifier of the user storage: a number or a string. *)
Inductive key :=
| KNum (z : Z)
| KStr (s : jsstring).

Definition key_value (k : key) : value :=
  match k with
  | KNum z => Num z
  | KStr s => Str s
  end.

Definition key_eqb (a b : key) : bool :=
  match a, b with
  | KNum x, KNum y => Z.eqb x y
  | KStr x, KStr y => str_eqb x y
  | _, _ => false
  end.

(** Modelled from the spec: the record type of the user model handed in
    as [options.db.models.user] (spec section 3): id, name, email, token,
    verified. *)
Record user := {
  id : key;
  name : value;
  email : jsstring;
  token : option jsstring;      (* null when no sign-in is pending *)
  verified : bool
}.

Definition set_token (t : option jsstring) (u : user) : user :=
  {| id := id u; name := name u; email := email u;
     token := t; verified := verified u |}.

Definition set_verified (b : bool) (u : user) : user :=
  {| id := id u; name := name u; email := email u;
     token := token u; verified := b |}.

(** The filter objects passed to [User.one]. *)
Inductive filter :=
| ByEmail (e : jsstring)        (* { email: email } *)
| ByToken (t : jsstring).       (* { token: req.params.token } *)

Definition matches (f : filter) (u : user) : bool :=
  match f with
  | ByEmail e => str_eqb (email u) e
  | ByToken t => match token u with
                 | Some t' => str_eqb t' t
                 | None => false
                 end
  end.

Definition has_id (k : key) (u : user) : bool := key_eqb (id u) k.

(** Storage calls, as issued. *)
Inductive db_call :=
| Get (k : key)
| One (f : filter)
| Save (u : user)
| Create (e t : jsstring).

(** ** The server's world *)

Inductive response :=
| Json (body : value)                 (* res.json *)
| Redirect (url : jsstring)           (* res.redirect *)
| Render (page : jsstring).           (* app.render *)

Record mail := {
  mail_to : jsstring;
  mail_from : jsstring;
  mail_subject : jsstring;
  mail_text : jsstring
}.

(** What the collaborators answer during one request: the token [uuid()]
    draws, the identifier the storage gives a created record, and the
    error, if any, that each storage or mail call reports. *)
Record oracle := {
  uuid_v4 : jsstring;
  assigned_id : key;
  get_fault : option error;
  one_fault : option error;
  save_fault : option error;
  create_fault : option error;
  mail_fault : option error
}.

Record world := {
  env : oracle;
  db : list user;                               (* stored user records *)
  db_calls : list db_call;                      (* storage calls issued *)
  session_user : option key;                    (* req.session.user *)
  locals_user : option value;                   (* res.locals.user *)
  locals_csrf : value;                          (* res.locals._csrf *)
  responses : list response;
  console : list (jsstring * option error);     (* console.log lines *)
  outbox : list mail;                           (* handed to sendMail *)
  uncaught : list error;                        (* thrown out of callbacks *)
  nexts : nat                                   (* next() invocations *)
}.

Definition with_env (o : oracle) (w : world) : world :=
  {| env := o; db := db w; db_calls := db_calls w;
     session_user := session_user w; locals_user := locals_user w;
     locals_csrf := locals_csrf w; responses := responses w;
     console := console w; outbox := outbox w; uncaught := uncaught w;
     nexts := nexts w |}.

Definition with_db (d : list user) (w : world) : world :=
  {| env := env w; db := d; db_calls := db_calls w;
     session_user := session_user w; locals_user := locals_user w;
     locals_csrf := locals_csrf w; responses := responses w;
     console := console w; outbox := outbox w; uncaught := uncaught w;
     nexts := nexts w |}.

Definition with_db_calls (c : list db_call) (w : world) : world :=
  {| env := env w; db := db w; db_calls := c;
     session_user := session_user w; locals_user := locals_user w;
     locals_csrf := locals_csrf w; responses := responses w;
     console := console w; outbox := outbox w; uncaught := uncaught w;
     nexts := nexts w |}.

Definition with_session_user (s : option key) (w : world) : world :=
  {| env := env w; db := db w; db_calls := db_calls w;
     session_user := s; locals_user := locals_user w;
     locals_csrf := locals_csrf w; responses := responses w;
     console := console w; outbox := outbox w; uncaught := uncaught w;
     nexts := nexts w |}.

Definition with_locals_user (u : option value) (w : world) : world :=
  {| env := env w; db := db w; db_calls := db_calls w;
     session_user := session_user w; locals_user := u;
     locals_csrf := locals_csrf w; responses := responses w;
     console := console w; outbox := outbox w; uncaught := uncaught w;
     nexts := nexts w |}.

Definition with_responses (r : list response) (w : world) : world :=
  {| env := env w; db := db w; db_calls := db_calls w;
     session_user := session_user w; locals_user := locals_user w;
     locals_csrf := locals_csrf w; responses := r;
     console := console w; outbox := outbox w; uncaught := uncaught w;
     nexts := nexts w |}.

Definition with_console (c : list (jsstring * option error)) (w : world)
  : world :=
  {| env := env w; db := db w; db_calls := db_calls w;
     session_user := session_user w; locals_user := locals_user w;
     locals_csrf := locals_csrf w; responses := responses w;
     console := c; outbox := outbox w; uncaught := uncaught w;
     nexts := nexts w |}.

Definition with_outbox (o : list mail) (w : world) : world :=
  {| env := env w; db := db w; db_calls := db_calls w;
     session_user := session_user w; locals_user := locals_user w;
     locals_csrf := locals_csrf w; responses := responses w;
     console := console w; outbox := o; uncaught := uncaught w;
     nexts := nexts w |}.

Definition with_uncaught (e : list error) (w : world) : world :=
  {| env := env w; db := db w; db_calls := db_calls w;
     session_user := session_user w; locals_user := locals_user w;
     locals_csrf := locals_csrf w; responses := responses w;
     console := console w; outbox := outbox w; uncaught := e;
     nexts := nexts w |}.

Definition with_nexts (n : nat) (w : world) : world :=
  {| env := env w; db := db w; db_calls := db_calls w;
     session_user := session_user w; locals_user := locals_user w;
     locals_csrf := locals_csrf w; responses := responses w;
     console := console w; outbox := outbox w; uncaught := uncaught w;
     nexts := n |}.

(** ** Handlers as programs

    A handler runs to completion and may throw.  A storage or mail call
    only registers its callback; the callback is a task that the event
    loop runs later, and that may register further tasks. *)

Inductive outcome (A : Type) :=
| Ret (a : A)
| Throw (e : error).
Arguments Ret {A} a.
Arguments Throw {A} e.

#[local] Unset Elimination Schemes.
Inductive task :=
| Task (body : world -> outcome unit * world * list task).
#[local] Set Elimination Schemes.

Definition M (A : Type) : Type := world -> outcome A * world * list task.

Definition ret {A} (a : A) : M A := fun w => (Ret a, w, []).

Definition bind {A B} (m : M A) (f : A -> M B) : M B :=
  fun w =>
    match m w with
    | (Ret a, w1, q1) =>
        match f a w1 with
        | (o, w2, q2) => (o, w2, q1 ++ q2)
        end
    | (Throw e, w1, q1) => (Throw e, w1, q1)
    end.

Definition throw {A} (e : error) : M A := fun w => (Throw e, w, []).

Definition gets {A} (f : world -> A) : M A := fun w => (Ret (f w), w, []).

Definition modify (f : world -> world) : M unit :=
  fun w => (Ret tt, f w, []).

(** Register a callback for a later turn of the event loop. *)
Definition defer (t : M unit) : M unit := fun w => (Ret tt, w, [Task t]).

Declare Scope js_scope.
Delimit Scope js_scope with js.
Notation "x <- c ;; k" := (bind c (fun x => k))
  (at level 61, c at next level, right associativity) : js_scope.
Notation "c ;; k" := (bind c (fun _ => k))
  (at level 61, right associativity) : js_scope.
Local Open Scope js_scope.

(** *** The event loop *)

(** The [n]-th pending task (the last one when [n] is too large) and the
    tasks that stay pending. *)
Fixpoint pick (n : nat) (q : list task) {struct q}
  : option (task * list task) :=
  match q with
  | [] => None
  | t :: q' =>
      match q' with
      | [] => Some (t, [])
      | _ :: _ =>
          match n with
          | 0 => Some (t, q')
          | S n' =>
              match pick n' q' with
              | Some (t', r) => Some (t', t :: r)
              | None => Some (t, [])
              end
          end
      end
  end.

(** One turn per element of the schedule, which says which pending
    callback completes next.  An exception that escapes a callback is
    uncaught: the world keeps a record of it and the loop goes on with
    the callbacks that remain, as a process that survives the exception
    does. *)
Fixpoint drain (sched : list nat) (q : list task) (w : world)
  : world * list task :=
  match sched with
  | [] => (w, q)
  | n :: sched' =>
      match pick n q with
      | None => (w, [])
      | Some (Task body, q') =>
          match body w with
          | (Ret _, w', spawned) => drain sched' (q' ++ spawned) w'
          | (Throw e, w', spawned) =>
              drain sched' (q' ++ spawned)
                    (with_uncaught (uncaught w' ++ [e]) w')
          end
      end
  end.

(** A request: the handler's synchronous part, then the event loop.  The
    result is the outcome of the synchronous part, the world once the
    schedule is used up, and the callbacks still pending. *)
Definition run (sched : list nat) (h : M unit) (w : world)
  : outcome unit * world * list task :=
  match h w with
  | (o, w1, q) =>
      match drain sched q w1 with
      | (w2, q') => (o, w2, q')
      end
  end.

(** ** The collaborators

    Modelled from the spec: the user storage exposes get-by-id,
    find-one-by-filter, create and save, each completed through a
    callback (spec sections 1 and 6).  A call that reports an error hands
    its callback the error and no record, and leaves the stored records as
    they are. *)

Definition issue (c : db_call) : M unit :=
  modify (fun w => with_db_calls (db_calls w ++ [c]) w).

(** [User.get(id, cb)] *)
Definition User_get (k : key) (cb : option error -> option user -> M unit)
  : M unit :=
  issue (Get k) ;;
  defer (f <- gets (fun w => get_fault (env w)) ;;
         match f with
         | Some e => cb (Some e) None
         | None =>
             found <- gets (fun w => find (has_id k) (db w)) ;;
             cb None found
         end).

(** [User.one(filter, cb)]: the first record that matches. *)
Definition User_one (flt : filter)
  (cb : option error -> option user -> M unit) : M unit :=
  issue (One flt) ;;
  defer (f <- gets (fun w => one_fault (env w)) ;;
         match f with
         | Some e => cb (Some e) None
         | None =>
             found <- gets (fun w => find (matches flt) (db w)) ;;
             cb None found
         end).

(** What a successful save does to the stored records: the record with
    the instance's identifier takes the instance's fields. *)
Definition persist (u : user) (d : list user) : list user :=
  map (fun r => if has_id (id u) r then u else r) d.

(** [user.save(cb)]; a save that reports an error stores nothing. *)
Definition save (u : user) (cb : option error -> M unit) : M unit :=
  issue (Save u) ;;
  defer (f <- gets (fun w => save_fault (env w)) ;;
         match f with
         | Some e => cb (Some e)
         | None =>
             modify (fun w => with_db (persist u (db w)) w) ;;
             cb None
         end).

(** The record that [User.create({ email, token })] stores: new,
    unverified, without a name, under the identifier the storage assigns. *)
Definition created (w : world) (e t : jsstring) : user :=
  {| id := assigned_id (env w); name := Undefined; email := e;
     token := Some t; verified := false |}.

(** [User.create({ email, token }, cb)]; a create that reports an error
    stores nothing. *)
Definition User_create (e t : jsstring) (cb : option error -> M unit)
  : M unit :=
  issue (Create e t) ;;
  defer (f <- gets (fun w => create_fault (env w)) ;;
         match f with
         | Some err => cb (Some err)
         | None =>
             modify (fun w => with_db (db w ++ [created w e t]) w) ;;
             cb None
         end).

(** [nodemailer.createTransport(mailserver).sendMail(message, cb)] *)
Definition sendMail (m : mail) (cb : option error -> M unit) : M unit :=
  modify (fun w => with_outbox (outbox w ++ [m]) w) ;;
  defer (f <- gets (fun w => mail_fault (env w)) ;; cb f).

Definition uuid : M jsstring := gets (fun w => uuid_v4 (env w)).

Definition respond (r : response) : M unit :=
  modify (fun w => with_responses (responses w ++ [r]) w).

Definition next : M unit := modify (fun w => with_nexts (S (nexts w)) w).

Definition console_log (s : jsstring) (e : option error) : M unit :=
  modify (fun w => with_console (console w ++ [(s, e)]) w).

(** A read of property [p] of the callback's [user] argument: a TypeError
    when the argument is undefined. *)
Definition field {A} (p : string) (f : user -> A) (u : option user) : M A :=
  match u with
  | Some r => ret (f r)
  | None => throw (TypeError p)
  end.

(** ** exports.configure *)

(** The options the routes read.  The user model of [options.db] is the
    [db] of the world; secret, store, maxAge and mailserver configure the
    session and mail libraries only. *)
Record options := {
  opt_path : option jsstring;
  opt_pages : option jsstring;
  opt_clientMaxAge : option Z;
  opt_serverUrl : option jsstring
}.

Record request := {
  body_email : value;                   (* req.body.email *)
  params_token : option jsstring;       (* req.params.token *)
  headers_host : option jsstring        (* req.headers.host *)
}.

Section Configure.

Variable opts : options.

(** [options.path || '/auth'] *)
Definition path : jsstring := str_or (opt_path opts) (lit "/auth").

(** [options.pages || 'auth'] *)
Definition pages : jsstring := str_or (opt_pages opts) (lit "auth").

(** [options.clientMaxAge || 60000] *)
Definition clientMaxAge : value :=
  JS.or (match opt_clientMaxAge opts with
         | Some z => Num z
         | None => Undefined
         end) (Num 60000).

(** [options.serverUrl || null] *)
Definition serverUrl : option jsstring :=
  match opt_serverUrl opts with
  | Some ((_ :: _) as s) => Some s
  | _ => None
  end.

(** The user reference of the session when [req.session.user] is
    truthy. *)
Definition signed_in (w : world) : option key :=
  match session_user w with
  | Some k => if truthy (key_value k) then Some k else None
  | None => None
  end.

(** Lines 83-97: expose the signed-in user to server-side rendering. *)
Definition expose_user : M unit :=
  su <- gets signed_in ;;
  match su with
  | None => next
  | Some k =>
      User_get k (fun err user =>
        match user with
        | Some u =>
            modify (with_locals_user
                      (Some (Obj [("name", name u);
                                  ("email", Str (email u))]%string)))
        | None => ret tt
        end ;;
        next)
  end.

(** Lines 100-102. *)
Definition csrf_get : M unit :=
  c <- gets locals_csrf ;;
  respond (Json (Obj [("csrfToken", c)]%string)).

(** Lines 105-124. *)
Definition session_get : M unit :=
  su <- gets signed_in ;;
  match su with
  | Some k =>
      User_get k (fun err user =>
        n <- field "name" name user ;;
        e <- field "email" email user ;;
        c <- gets locals_csrf ;;
        respond (Json (Obj [("user", Obj [("name", n);
                                          ("email", Str e)]);
                            ("clientMaxAge", clientMaxAge);
                            ("csrfToken", c)]%string)))
  | None =>
      c <- gets locals_csrf ;;
      respond (Json (Obj [("clientMaxAge", clientMaxAge);
                          ("csrfToken", c)]%string))
  end.

(** Line 134. *)
Definition verificationUrl (req : request) (tok : jsstring) : jsstring :=
  match serverUrl with
  | Some s => s
  | None => lit "http://" ++ to_string (headers_host req)
  end ++ path ++ lit "/email/signin/" ++ tok.

(** [req.headers.host.split(":")[0]]: a TypeError when there is no Host
    header. *)
Definition host_name (req : request) : M jsstring :=
  match headers_host req with
  | Some h => ret (to_string (nth_error (split 58 h) 0))
  | None => throw (TypeError "split")
  end.

(** Lines 127-168. *)
Definition signin_post (req : request) : M unit :=
  match JS.or (body_email req) Null with
  | Str email =>
      if str_eqb (trim email) [] then
        respond (Render (pages ++ lit "/signin"))
      else
        tok <- uuid ;;
        let url := verificationUrl req tok in
        User_one (ByEmail email) (fun err user =>
          match user with
          | Some u =>
              save (set_token (Some tok) u) (fun err =>
                match err with
                | Some e => throw e
                | None => ret tt
                end)
          | None =>
              User_create email tok (fun err =>
                match err with
                | Some e => throw e
                | None => ret tt
                end)
          end) ;;
        host <- host_name req ;;
        sendMail {| mail_to := email;
                    mail_from := lit "noreply@" ++ host;
                    mail_subject := lit "Sign in link";
                    mail_text :=
                      lit "Use the link below to sign in:" ++ [10; 10]%N
                      ++ url ++ [10; 10]%N |}
                 (fun err =>
                    match err with
                    | Some e =>
                        console_log (lit "Generated sign in link " ++ url
                                     ++ lit " for " ++ email) None ;;
                        console_log (lit "Error sending email to "
                                     ++ email) (Some e)
                    | None => ret tt
                    end) ;;
        respond (Render (pages ++ lit "/check-email"))
  | other =>
      if truthy other then
        throw (TypeError "trim")      (* email.trim is not a function *)
      else
        respond (Render (pages ++ lit "/signin"))
  end.

(** Lines 170-189. *)
Definition signin_get (req : request) : M unit :=
  match params_token req with
  | Some ((_ :: _) as tok) =>
      User_one (ByToken tok) (fun err user =>
        match user with
        | Some u =>
            let u := set_token None u in
            let u := set_verified true u in
            save u (fun err =>
              modify (with_session_user (Some (id u))) ;;
              respond (Redirect (path ++ lit "/valid")))
        | None => respond (Redirect (path ++ lit "/invalid"))
        end)
  | _ => respond (Redirect (path ++ lit "/signin"))
  end.

(** Lines 191-196. *)
Definition signout : M unit :=
  su <- gets signed_in ;;
  match su with
  | Some _ => modify (with_session_user None)
  | None => ret tt
  end ;;
  respond (Redirect (lit "/")).

End Configure.

Arguments path : simpl never.
Arguments pages : simpl never.
Arguments clientMaxAge : simpl never.
Arguments verificationUrl : simpl never.

(** ** What the callbacks receive *)

(** The [user] argument that the callback of [User.one] receives. *)
Definition delivered (flt : filter) (w : world) : option user :=
  match one_fault (env w) with
  | Some _ => None
  | None => find (matches flt) (db w)
  end.

(** The [user] argument that the callback of [User.get] receives. *)
Definition fetched (k : key) (w : world) : option user :=
  match get_fault (env w) with
  | Some _ => None
  | None => find (has_id k) (db w)
  end.

(** The instance that the redemption handler saves. *)
Definition redeemed (u : user) : user := set_verified true (set_token None u).

(** The storage call that the lookup callback of the issuance handler
    makes. *)
Definition issuance_call (w : world) (e : jsstring) : db_call :=
  let tok := uuid_v4 (env w) in
  match delivered (ByEmail e) w with
  | Some u => Save (set_token (Some tok) u)
  | None => Create e tok
  end.

(** The stored records once that call has completed. *)
Definition issuance_db (w : world) (e : jsstring) : list user :=
  let tok := uuid_v4 (env w) in
  match delivered (ByEmail e) w with
  | Some u =>
      match save_fault (env w) with
      | Some _ => db w
      | None => persist (set_token (Some tok) u) (db w)
      end
  | None =>
      match create_fault (env w) with
      | Some _ => db w
      | None => db w ++ [created w e tok]
      end
  end.

(** The error that its callback rethrows. *)
Definition issuance_rethrown (w : world) (e : jsstring) : list error :=
  match match delivered (ByEmail e) w with
        | Some _ => save_fault (env w)
        | None => create_fault (env w)
        end with
  | Some err => [err]
  | None => []
  end.

(** The message handed to the mail transport. *)
Definition signin_mail (opts : options) (req : request) (w : world)
  (e h : jsstring) : mail :=
  {| mail_to := e;
     mail_from := lit "noreply@" ++ to_string (nth_error (split 58 h) 0);
     mail_subject := lit "Sign in link";
     mail_text := lit "Use the link below to sign in:" ++ [10; 10]%N
                  ++ verificationUrl opts req (uuid_v4 (env w))
                  ++ [10; 10]%N |}.

(** The console lines of the mail callback. *)
Definition mail_log (opts : options) (req : request) (w : world)
  (e : jsstring) : list (jsstring * option error) :=
  match mail_fault (env w) with
  | Some err =>
      [(lit "Generated sign in link "
        ++ verificationUrl opts req (uuid_v4 (env w))
        ++ lit " for " ++ e, None);
       (lit "Error sending email to " ++ e, Some err)]
  | None => []
  end.

(** ** Sample data *)

Definition alice : user :=
  {| id := KNum 1; name := Str (lit "Alice");
     email := lit "alice@example.com";
     token := Some (lit "T1"); verified := false |}.

(** Collaborators that report no error. *)
Definition calm : oracle :=
  {| uuid_v4 := lit "T2"; assigned_id := KNum 2;
     get_fault := None; one_fault := None; save_fault := None;
     create_fault := None; mail_fault := None |}.

(** The same, with a storage that refuses to save. *)
Definition failing_save : oracle :=
  {| uuid_v4 := lit "T2"; assigned_id := KNum 2;
     get_fault := None; one_fault := None; save_fault := Some (Failure 1);
     create_fault := None; mail_fault := None |}.

(** A world at the start of a request. *)
Definition world_of (o : oracle) (d : list user) (s : option key) : world :=
  {| env := o; db := d; db_calls := []; session_user := s;
     locals_user := None; locals_csrf := Str (lit "csrf");
     responses := []; console := []; outbox := []; uncaught := [];
     nexts := 0 |}.

Definition defaults : options :=
  {| opt_path := None; opt_pages := None; opt_clientMaxAge := None;
     opt_serverUrl := None |}.

(** GET /auth/email/signin/T1 *)
Definition redeem_T1 : request :=
  {| body_email := Undefined; params_token := Some (lit "T1");
     headers_host := Some (lit "example.com") |}.

(** POST /auth/email/signin with email=alice@example.com *)
Definition post_alice : request :=
  {| body_email := Str (lit "alice@example.com"); params_token := None;
     headers_host := Some (lit "example.com:3000") |}.


(** ** The rest of the module *)

(** What [configure] does before it installs anything. *)
Inductive startup :=
| Configured
| Refused (message : jsstring).        (* throw new Error(message) *)

(** Lines 22-25.  The three tests are read left to right and the first
    failing one decides, so no property is read from a missing object. *)
Definition configure_check (options : value) : startup :=
  let options := if truthy options then options else Obj [] in
  if negb (truthy (prop "db" options))
     || negb (truthy (prop "models" (prop "db" options)))
     || negb (truthy (prop "user" (prop "models" (prop "db" options))))
  then Refused (lit "Database with user model is a required option!")
  else Configured.

(** The character class [[-\/\\^$*+?.()|[\]{}]] of line 202. *)
Definition regex_special (c : N) : bool :=
  existsb (N.eqb c)
    [45; 47; 92; 94; 36; 42; 43; 63; 46; 40; 41; 124; 91; 93; 123; 125]%N.
Arguments regex_special : simpl never.

(** Lines 201-203: [s.replace(/[...]/g, '\\$&')], a backslash before
    every character of the class. *)
Fixpoint escape (s : jsstring) : jsstring :=
  match s with
  | [] => []
  | c :: s' =>
      if regex_special c then 92%N :: c :: escape s' else c :: escape s'
  end.

(** The text that an escaped pattern stands for: a backslash makes the
    character after it literal. *)
Fixpoint unescape (s : jsstring) : jsstring :=
  match s with
  | [] => []
  | c :: s' =>
      if N.eqb c 92 then
        match s' with
        | [] => [c]
        | d :: s'' => d :: unescape s''
        end
      else c :: unescape s'
  end.

(** The request bodies that line 130 sends back to the sign-in page: no
    email, a falsy one, or a string of white space only. *)
Definition blank_email (v : value) : Prop :=
  truthy v = false \/ exists s, v = Str s /\ forallb is_space s = true.

(** What [res.json] puts on the wire: the serialisation leaves out the
    properties of an object whose value is undefined. *)
Fixpoint jsonify (v : value) : value :=
  match v with
  | Obj fields =>
      Obj ((fix visible (l : list (string * value)) :=
              match l with
              | [] => []
              | (k, x) :: r =>
                  match x with
                  | Undefined => visible r
                  | _ => (k, jsonify x) :: visible r
                  end
              end) fields)
  | _ => v
  end.

(** ** More sample data *)

(** A stored user without a pending token. *)
Definition bob : user :=
  {| id := KNum 4; name := Str (lit "Bob"); email := lit "bob@example.com";
     token := None; verified := true |}.

(** A stored user without a name, as [User.create] leaves one. *)
Definition carol : user :=
  {| id := KNum 3; name := Undefined; email := lit "carol@example.com";
     token := None; verified := true |}.

(** A storage that refuses to create. *)
Definition failing_create : oracle :=
  {| uuid_v4 := lit "T2"; assigned_id := KNum 2;
     get_fault := None; one_fault := None; save_fault := None;
     create_fault := Some (Failure 2); mail_fault := None |}.

(** POST /auth/email/signin with email=bob@example.com *)
Definition post_bob : request :=
  {| body_email := Str (lit "bob@example.com"); params_token := None;
     headers_host := Some (lit "example.com") |}.

(** A stored user whose identifier is the number 0. *)
Definition nobody : user :=
  {| id := KNum 0; name := Null; email := lit "zero@example.com";
     token := Some (lit "T0"); verified := false |}.

(** A storage whose lookups fail. *)
Definition failing_lookup : oracle :=
  {| uuid_v4 := lit "T2"; assigned_id := KNum 2;
     get_fault := None; one_fault := Some (Failure 7); save_fault := None;
     create_fault := None; mail_fault := None |}.

(** POST /auth/email/signin with email=%20%20%20 *)
Definition post_spaces : request :=
  {| body_email := Str (lit "   "); params_token := None;
     headers_host := Some (lit "example.com") |}.

(** POST /auth/email/signin with the JSON body {"email": 5} *)
Definition post_number : request :=
  {| body_email := Num 5; params_token := None;
     headers_host := Some (lit "example.com") |}.

(** GET /auth/email/signin/T0 and GET /auth/email/signin/T2 *)
Definition redeem_T0 : request :=
  {| body_email := Undefined; params_token := Some (lit "T0");
     headers_host := Some (lit "example.com") |}.

Definition redeem_T2 : request :=
  {| body_email := Undefined; params_token := Some (lit "T2");
     headers_host := Some (lit "example.com") |}.

(** A redemption request that matched the route with no token. *)
Definition redeem_nothing : request :=
  {| body_email := Undefined; params_token := None;
     headers_host := Some (lit "example.com") |}.

(** * Properties *)

(** ** Strings and keys *)

Lemma str_eqb_eq (a b : jsstring) : str_eqb a b = true <-> a = b.
Proof.
  revert b; induction a as [|x a IH]; intros [|y b]; cbn;
    try (split; [discriminate | congruence]); try tauto.
  rewrite andb_true_iff, N.eqb_eq, IH.
  split; [intros [-> ->]; reflexivity | intros [= -> ->]; auto].
Qed.

Lemma key_eqb_eq (a b : key) : key_eqb a b = true <-> a = b.
Proof.
  destruct a as [x|x], b as [y|y]; cbn;
    try (split; [discriminate | congruence]).
  - rewrite Z.eqb_eq; split; congruence.
  - rewrite str_eqb_eq; split; congruence.
Qed.

Lemma key_eqb_refl (a : key) : key_eqb a a = true.
Proof. apply key_eqb_eq; reflexivity. Qed.

Lemma nonblank_nonempty (s : jsstring) : trim s <> [] -> s <> [].
Proof. intros H ->. now apply H. Qed.

Lemma split_nonempty (sep : N) (s : jsstring) : split sep s <> [].
Proof.
  destruct s as [|c s]; cbn; [discriminate|].
  destruct (N.eqb c sep); [discriminate|].
  destruct (split sep s); discriminate.
Qed.

(** Element [0] of a split is never undefined. *)
Lemma split_first (sep : N) (s : jsstring) :
  exists x, nth_error (split sep s) 0 = Some x.
Proof.
  pose proof (split_nonempty sep s) as H.
  destruct (split sep s) as [|x l]; [congruence | now exists x].
Qed.

(** ** The user storage *)

Section Storage.

Variable u' : user.

Lemma find_id_persist (d : list user) (r0 : user) :
  In r0 d -> id r0 = id u' ->
  find (has_id (id u')) (persist u' d) = Some u'.
Proof.
  intros Hin Hid.
  induction d as [|r d IH]; cbn; [contradiction|].
  destruct (has_id (id u') r) eqn:E.
  - unfold has_id at 1. now rewrite key_eqb_refl.
  - rewrite E. destruct Hin as [->|Hin]; [|auto].
    unfold has_id in E. rewrite Hid, key_eqb_refl in E. discriminate.
Qed.

Lemma find_persist_first (p : user -> bool) (d : list user) (r0 : user) :
  p u' = true -> id r0 = id u' ->
  find p d = Some r0 ->
  find p (persist u' d) = Some u'.
Proof.
  intros Hp Hid.
  induction d as [|r d IH]; cbn; [discriminate|].
  destruct (p r) eqn:E.
  - intros [= ->]. unfold has_id. rewrite Hid, key_eqb_refl.
    now rewrite Hp.
  - intros H. destruct (has_id (id u') r).
    + now rewrite Hp.
    + rewrite E. auto.
Qed.

End Storage.

Lemma find_app_new (p : user -> bool) (d : list user) (r : user) :
  find p d = None -> p r = true -> find p (d ++ [r]) = Some r.
Proof.
  induction d as [|x d IH]; cbn; intros H Hr.
  - now rewrite Hr.
  - destruct (p x); [discriminate | auto].
Qed.

(** ** The event loop *)

Lemma drain_nil (sched : list nat) (w : world) : drain sched [] w = (w, []).
Proof. destruct sched; reflexivity. Qed.

(** The first record a filter matches is a stored record that matches. *)
Lemma one_found (flt : filter) (d : list user) (u : user) :
  find (matches flt) d = Some u -> In u d /\ matches flt u = true.
Proof. apply find_some. Qed.

Lemma one_finds (flt : filter) (d : list user) (u0 : user) :
  In u0 d -> matches flt u0 = true ->
  exists u, find (matches flt) d = Some u.
Proof.
  intros Hin Hm. destruct (find (matches flt) d) as [u|] eqn:F; [eauto|].
  rewrite (find_none _ _ F _ Hin) in Hm. discriminate.
Qed.

Lemma matches_token (t : jsstring) (u : user) :
  matches (ByToken t) u = true <-> token u = Some t.
Proof.
  cbn. destruct (token u) as [t'|].
  - rewrite str_eqb_eq. split; congruence.
  - split; discriminate.
Qed.

Lemma matches_email (e : jsstring) (u : user) :
  matches (ByEmail e) u = true <-> email u = e.
Proof. cbn. apply str_eqb_eq. Qed.

(** Unfold a handler and take the turns of the event loop. *)
Ltac turns :=
  cbn; repeat rewrite drain_nil; cbn.

(** Case analysis on what the collaborators answer in world [w]; an
    answer, once known, is the same wherever it is read. *)
Ltac known :=
  match goal with
  | H : ?x = _ |- context [match ?x with _ => _ end] => rewrite H
  end.

Ltac answers w :=
  repeat (turns;
          first
            [ known
            | match goal with
              | |- context [match one_fault (env w) with _ => _ end] =>
                  destruct (one_fault (env w)) eqn:?
              | |- context [match get_fault (env w) with _ => _ end] =>
                  destruct (get_fault (env w)) eqn:?
              | |- context [match find ?p (db w) with _ => _ end] =>
                  destruct (find p (db w)) eqn:?
              | |- context [match save_fault (env w) with _ => _ end] =>
                  destruct (save_fault (env w)) eqn:?
              | |- context [match create_fault (env w) with _ => _ end] =>
                  destruct (create_fault (env w)) eqn:?
              | |- context [match mail_fault (env w) with _ => _ end] =>
                  destruct (mail_fault (env w)) eqn:?
              end ]);
  turns.

Lemma or_nonempty (e : jsstring) : e <> [] -> JS.or (Str e) Null = Str e.
Proof. destruct e; [congruence | reflexivity]. Qed.

(** ** Token redemption *)

Lemma delivered_found (flt : filter) (w : world) (u0 : user) :
  one_fault (env w) = None -> In u0 (db w) -> matches flt u0 = true ->
  exists u, delivered flt w = Some u /\ In u (db w) /\ matches flt u = true.
Proof.
  intros Hone Hin Hm. unfold delivered. rewrite Hone.
  destruct (one_finds flt (db w) u0 Hin Hm) as [u F].
  exists u. split; [exact F|]. now apply one_found.
Qed.

(** The whole of a redemption whose lookup delivers a record. *)
Lemma signin_get_found opts req w sched tok u :
  params_token req = Some tok -> tok <> [] ->
  delivered (ByToken tok) w = Some u ->
  2 <= length sched ->
  run sched (signin_get opts req) w =
  (Ret tt,
   with_responses (responses w ++ [Redirect (path opts ++ lit "/valid")])
     (with_session_user (Some (id u))
        (with_db (match save_fault (env w) with
                  | Some _ => db w
                  | None => persist (redeemed u) (db w)
                  end)
           (with_db_calls
              (db_calls w ++ [One (ByToken tok); Save (redeemed u)]) w))),
   []).
Proof.
  intros Htok Hne F Hlen. unfold delivered in F.
  unfold run, signin_get. rewrite Htok.
  destruct tok as [|c tok]; [congruence|].
  destruct sched as [|n1 [|n2 sched]]; cbn in Hlen; try lia.
  cbn. destruct (one_fault (env w)); [discriminate|].
  cbn. rewrite F. cbn.
  destruct (save_fault (env w)); turns; rewrite <- app_assoc; reflexivity.
Qed.

(** The whole of a redemption whose lookup delivers nothing. *)
Lemma signin_get_missing opts req w sched tok :
  params_token req = Some tok -> tok <> [] ->
  delivered (ByToken tok) w = None ->
  1 <= length sched ->
  run sched (signin_get opts req) w =
  (Ret tt,
   with_responses (responses w ++ [Redirect (path opts ++ lit "/invalid")])
     (with_db_calls (db_calls w ++ [One (ByToken tok)]) w),
   []).
Proof.
  intros Htok Hne F Hlen. unfold delivered in F.
  unfold run, signin_get. rewrite Htok.
  destruct tok as [|c tok]; [congruence|].
  destruct sched as [|n1 sched]; cbn in Hlen; try lia.
  cbn. destruct (one_fault (env w)); turns; [reflexivity|].
  rewrite F. turns. reflexivity.
Qed.

(** C1, as the code has it.  A redemption request whose token (a path
    parameter, so not empty) is the stored token of some user record,
    when the lookup reports no error: the handler saves
    that user's instance with the token null and [verified] true, binds
    [session.user] to the user's id and redirects to [{base}/valid]; when
    the save goes through, the stored record has the token null and
    [verified] true. *)
Theorem redeem_valid opts req w sched tok u0 :
  params_token req = Some tok -> tok <> [] ->
  In u0 (db w) -> token u0 = Some tok ->
  one_fault (env w) = None ->
  2 <= length sched ->
  exists u w',
    In u (db w) /\ token u = Some tok /\
    run sched (signin_get opts req) w = (Ret tt, w', []) /\
    db_calls w' = db_calls w ++ [One (ByToken tok); Save (redeemed u)] /\
    token (redeemed u) = None /\ verified (redeemed u) = true /\
    id (redeemed u) = id u /\
    session_user w' = Some (id u) /\
    responses w' = responses w ++ [Redirect (path opts ++ lit "/valid")] /\
    (save_fault (env w) = None ->
     db w' = persist (redeemed u) (db w) /\
     find (has_id (id u)) (db w') = Some (redeemed u)).
Proof.
  intros Htok Hne Hin Ht Hone Hlen.
  destruct (delivered_found (ByToken tok) w u0 Hone Hin) as (u & F & Hu & Hm);
    [now apply matches_token|].
  apply matches_token in Hm.
  exists u. eexists. split; [exact Hu|]. split; [exact Hm|].
  split; [apply signin_get_found; eassumption|].
  cbn. repeat (split; [reflexivity|]).
  intros Hsave. rewrite Hsave. split; [reflexivity|].
  exact (find_id_persist (redeemed u) (db w) u Hu eq_refl).
Qed.


Lemma persist_redeemed_clears (tok : jsstring) (u : user) (d : list user) :
  (forall r, In r d -> token r = Some tok -> id r = id u) ->
  forall r, In r (persist (redeemed u) d) -> token r <> Some tok.
Proof.
  intros Huniq r Hr. unfold persist in Hr. apply in_map_iff in Hr.
  destruct Hr as (r0 & <- & Hr0).
  destruct (has_id (id (redeemed u)) r0) eqn:E; [discriminate|].
  intros Ht. unfold has_id in E. cbn in E.
  rewrite (Huniq r0 Hr0 Ht), key_eqb_refl in E. discriminate.
Qed.

Lemma find_none_of (p : user -> bool) (d : list user) :
  (forall r, In r d -> p r = false) -> find p d = None.
Proof.
  induction d as [|x d IH]; cbn; intros H; [reflexivity|].
  rewrite (H x (or_introl eq_refl)). apply IH. intros; apply H; auto.
Qed.

(** C2, as the code has it.  When the save of the first redemption goes
    through and no other record carries the same token value, no stored
    record carries the value afterwards, and a second redemption with the
    identical value, whatever its lookup reports, finds no user and
    redirects to [{base}/invalid]. *)
Theorem redeem_once opts req w sched1 sched2 o2 tok u0 :
  params_token req = Some tok -> tok <> [] ->
  In u0 (db w) -> token u0 = Some tok ->
  (forall r, In r (db w) -> token r = Some tok -> id r = id u0) ->
  one_fault (env w) = None ->
  save_fault (env w) = None ->
  2 <= length sched1 -> 1 <= length sched2 ->
  exists w1 w2,
    run sched1 (signin_get opts req) w = (Ret tt, w1, []) /\
    responses w1 = responses w ++ [Redirect (path opts ++ lit "/valid")] /\
    (forall r, In r (db w1) -> token r <> Some tok) /\
    run sched2 (signin_get opts req) (with_env o2 w1) = (Ret tt, w2, []) /\
    responses w2 = responses w1 ++ [Redirect (path opts ++ lit "/invalid")] /\
    session_user w2 = session_user w1 /\
    db w2 = db w1.
Proof.
  intros Htok Hne Hin Ht Huniq Hone Hsave Hlen1 Hlen2.
  destruct (delivered_found (ByToken tok) w u0 Hone Hin) as (u & F & Hu & Hm);
    [now apply matches_token|].
  apply matches_token in Hm.
  assert (Hclear : forall r, In r (persist (redeemed u) (db w)) ->
                             token r <> Some tok).
  { apply persist_redeemed_clears. intros r Hr Hrt.
    rewrite (Huniq r Hr Hrt). symmetry. now apply Huniq. }
  pose proof (signin_get_found opts req w sched1 tok u Htok Hne F Hlen1) as R1.
  rewrite Hsave in R1.
  match type of R1 with _ = (_, ?x, _) => set (w1 := x) in * end.
  assert (D : delivered (ByToken tok) (with_env o2 w1) = None).
  { unfold delivered. cbn. destruct (one_fault o2); [reflexivity|].
    apply find_none_of. intros r Hr.
    destruct (matches (ByToken tok) r) eqn:E; [|reflexivity].
    apply matches_token in E. now apply Hclear in E. }
  pose proof (signin_get_missing opts req _ sched2 tok Htok Hne D Hlen2) as R2.
  exists w1. eexists. split; [exact R1|]. split; [reflexivity|].
  split; [exact Hclear|]. split; [exact R2|]. repeat split.
Qed.

(** ** Token issuance *)

(** The whole of an issuance request with a non-blank email and a Host
    header, whichever callback completes first. *)
Lemma signin_post_run opts req w sched e h :
  body_email req = Str e -> trim e <> [] ->
  headers_host req = Some h ->
  3 <= length sched ->
  run sched (signin_post opts req) w =
  (Ret tt,
   with_uncaught (uncaught w ++ issuance_rethrown w e)
     (with_console (console w ++ mail_log opts req w e)
        (with_db (issuance_db w e)
           (with_db_calls (db_calls w ++ [One (ByEmail e); issuance_call w e])
              (with_responses
                 (responses w ++ [Render (pages opts ++ lit "/check-email")])
                 (with_outbox (outbox w ++ [signin_mail opts req w e h])
                    w))))),
   []).
Proof.
  intros He Hnb Hh Hlen.
  unfold run, signin_post.
  rewrite He, (or_nonempty e (nonblank_nonempty e Hnb)).
  destruct (str_eqb (trim e) []) eqn:B;
    [apply str_eqb_eq in B; congruence|].
  unfold host_name. rewrite Hh.
  unfold issuance_rethrown, issuance_db, issuance_call, mail_log, delivered.
  destruct sched as [|[|n1] [|[|n2] [|n3 sched]]]; cbn in Hlen; try lia;
    answers w; rewrite ?app_nil_r, <- ?app_assoc; reflexivity.
Qed.

(** The whole of an issuance request with a non-blank email and no Host
    header: the handler throws out of line 155, after the lookup of line
    138 has been issued. *)
Lemma signin_post_no_host opts req w sched e :
  body_email req = Str e -> trim e <> [] ->
  headers_host req = None ->
  2 <= length sched ->
  run sched (signin_post opts req) w =
  (Throw (TypeError "split"),
   with_uncaught (uncaught w ++ issuance_rethrown w e)
     (with_db (issuance_db w e)
        (with_db_calls (db_calls w ++ [One (ByEmail e); issuance_call w e])
           w)),
   []).
Proof.
  intros He Hnb Hh Hlen.
  unfold run, signin_post.
  rewrite He, (or_nonempty e (nonblank_nonempty e Hnb)).
  destruct (str_eqb (trim e) []) eqn:B;
    [apply str_eqb_eq in B; congruence|].
  unfold host_name. rewrite Hh.
  unfold issuance_rethrown, issuance_db, issuance_call, delivered.
  destruct sched as [|n1 [|n2 sched]]; cbn in Hlen; try lia;
    answers w; rewrite ?app_nil_r, <- ?app_assoc; reflexivity.
Qed.

Lemma issuance_db_has (w : world) (e : jsstring) :
  one_fault (env w) = None ->
  save_fault (env w) = None ->
  create_fault (env w) = None ->
  let tok := uuid_v4 (env w) in
  match find (matches (ByEmail e)) (db w) with
  | Some u =>
      issuance_call w e = Save (set_token (Some tok) u) /\
      issuance_db w e = persist (set_token (Some tok) u) (db w) /\
      find (matches (ByEmail e)) (issuance_db w e)
      = Some (set_token (Some tok) u) /\
      email u = e
  | None =>
      issuance_call w e = Create e tok /\
      issuance_db w e = db w ++ [created w e tok] /\
      find (matches (ByEmail e)) (issuance_db w e)
      = Some (created w e tok)
  end.
Proof.
  intros Hone Hsave Hcreate.
  unfold issuance_call, issuance_db, delivered.
  rewrite Hone, Hsave, Hcreate. cbn zeta.
  destruct (find (matches (ByEmail e)) (db w)) as [u|] eqn:F.
  - destruct (one_found _ _ _ F) as [Hu Hm].
    repeat split; [|now apply matches_email].
    apply find_persist_first with (r0 := u); auto.
  - repeat split. apply find_app_new; [exact F|].
    apply matches_email. reflexivity.
Qed.

(** C3, as the code has it.  An issuance request with a non-blank email,
    when the lookup, the save and the create report no error: once the callbacks have completed, the first
    record with that email carries the fresh token (the record that was
    there, its token overwritten, or a record created with that email and
    token); and, the request having a Host header, the check-email page
    has been rendered and nothing was thrown. *)
Theorem issue_token opts req w sched e :
  body_email req = Str e -> trim e <> [] ->
  one_fault (env w) = None ->
  save_fault (env w) = None ->
  create_fault (env w) = None ->
  3 <= length sched ->
  exists o w' u',
    run sched (signin_post opts req) w = (o, w', []) /\
    find (matches (ByEmail e)) (db w') = Some u' /\
    In u' (db w') /\ email u' = e /\ token u' = Some (uuid_v4 (env w)) /\
    match find (matches (ByEmail e)) (db w) with
    | Some u =>
        u' = set_token (Some (uuid_v4 (env w))) u /\
        db w' = persist u' (db w)
    | None =>
        u' = created w e (uuid_v4 (env w)) /\
        db w' = db w ++ [u']
    end /\
    uncaught w' = uncaught w /\
    match headers_host req with
    | Some _ =>
        o = Ret tt /\
        responses w'
        = responses w ++ [Render (pages opts ++ lit "/check-email")]
    | None => True
    end.
Proof.
  intros He Hnb Hone Hsave Hcreate Hlen.
  pose proof (issuance_db_has w e Hone Hsave Hcreate) as D. cbn zeta in D.
  assert (Hr : issuance_rethrown w e = []).
  { unfold issuance_rethrown. rewrite Hsave, Hcreate.
    now destruct (delivered (ByEmail e) w). }
  assert (R : exists o w',
             run sched (signin_post opts req) w = (o, w', []) /\
             db w' = issuance_db w e /\
             uncaught w' = uncaught w /\
             match headers_host req with
             | Some _ =>
                 o = Ret tt /\
                 responses w'
                 = responses w ++ [Render (pages opts ++ lit "/check-email")]
             | None => True
             end).
  { destruct (headers_host req) as [h|] eqn:Hh; eexists; eexists.
    - split; [apply signin_post_run; eassumption|].
      cbn. rewrite Hr, app_nil_r. repeat split.
    - split; [apply signin_post_no_host; try eassumption; lia|].
      cbn. rewrite Hr, app_nil_r. repeat split. }
  destruct R as (o & w' & R & Hdb & Hu & Hh).
  exists o, w'. rewrite Hdb.
  destruct (find (matches (ByEmail e)) (db w)) as [u|] eqn:F.
  - destruct D as (_ & Hp & Hf & Hue).
    exists (set_token (Some (uuid_v4 (env w))) u).
    rewrite Hf. repeat split; auto.
    now apply find_some in Hf.
  - destruct D as (_ & Hp & Hf).
    exists (created w e (uuid_v4 (env w))).
    rewrite Hf. repeat split; auto.
    now apply find_some in Hf.
Qed.



(** ** Sign-out *)

(** C6, as the code has it.  Sign-out deletes [session.user] when it is
    truthy and leaves the session as it is otherwise (no reference, or a
    falsy one such as 0); it redirects to [/] in both cases, and no truthy
    reference is left afterwards. *)
Theorem signout_clears w sched :
  exists w',
    run sched signout w = (Ret tt, w', []) /\
    session_user w' = match session_user w with
                      | Some k => if truthy (key_value k) then None
                                  else Some k
                      | None => None
                      end /\
    (forall k, session_user w' = Some k -> truthy (key_value k) = false) /\
    session_user w' = match signed_in w with
                      | Some _ => None
                      | None => session_user w
                      end /\
    signed_in w' = None /\
    responses w' = responses w ++ [Redirect (lit "/")] /\
    db w' = db w /\ uncaught w' = uncaught w.
Proof.
  unfold run, signout, signed_in. cbn.
  destruct (session_user w) as [k|] eqn:S; cbn;
    [destruct (truthy (key_value k)) eqn:T|];
    turns; eexists; (split; [reflexivity|]); cbn; rewrite ?S, ?T;
    repeat split; try discriminate.
  intros k' [= <-]. exact T.
Qed.

(** ** The session-user middleware *)

Lemma expose_user_run w sched :
  1 <= length sched ->
  run sched expose_user w =
  (Ret tt,
   match signed_in w with
   | None => with_nexts (S (nexts w)) w
   | Some k =>
       with_nexts (S (nexts w))
         (with_locals_user
            match fetched k w with
            | Some u => Some (Obj [("name", name u);
                                   ("email", Str (email u))]%string)
            | None => locals_user w
            end
            (with_db_calls (db_calls w ++ [Get k]) w))
   end,
   []).
Proof.
  intros Hlen. unfold run, expose_user, fetched.
  destruct sched as [|n sched]; cbn in Hlen; try lia.
  cbn. destruct (signed_in w); answers w; reflexivity.
Qed.

(** C7.  The middleware calls [next()] once and throws nothing, whatever
    the session holds and whatever the fetch reports; when the session has
    no user reference, or the fetch errors or returns no record,
    [res.locals.user] is left as it was. *)
Theorem expose_user_never_fails w sched :
  1 <= length sched ->
  exists w',
    run sched expose_user w = (Ret tt, w', []) /\
    nexts w' = S (nexts w) /\
    uncaught w' = uncaught w /\
    responses w' = responses w /\
    locals_user w'
    = match signed_in w with
      | None => locals_user w
      | Some k =>
          match fetched k w with
          | Some u => Some (Obj [("name", name u);
                                 ("email", Str (email u))]%string)
          | None => locals_user w
          end
      end.
Proof.
  intros Hlen. eexists. split; [apply expose_user_run; exact Hlen|].
  destruct (signed_in w); repeat split.
Qed.

(** ** The session query *)

Lemma session_get_run opts w sched :
  1 <= length sched ->
  run sched (session_get opts) w =
  (Ret tt,
   match signed_in w with
   | None =>
       with_responses
         (responses w ++
          [Json (Obj [("clientMaxAge", clientMaxAge opts);
                      ("csrfToken", locals_csrf w)]%string)]) w
   | Some k =>
       match fetched k w with
       | Some u =>
           with_responses
             (responses w ++
              [Json (Obj [("user", Obj [("name", name u);
                                        ("email", Str (email u))]);
                          ("clientMaxAge", clientMaxAge opts);
                          ("csrfToken", locals_csrf w)]%string)])
             (with_db_calls (db_calls w ++ [Get k]) w)
       | None =>
           with_uncaught (uncaught w ++ [TypeError "name"])
             (with_db_calls (db_calls w ++ [Get k]) w)
       end
   end,
   []).
Proof.
  intros Hlen. unfold run, session_get, fetched.
  destruct sched as [|n sched]; cbn in Hlen; try lia.
  cbn. destruct (signed_in w); answers w; reflexivity.
Qed.

Lemma clientMaxAge_num opts : exists z, clientMaxAge opts = Num z.
Proof.
  unfold clientMaxAge, JS.or.
  destruct (opt_clientMaxAge opts) as [z|]; cbn; [|now exists 60000%Z].
  destruct (Z.eqb z 0); cbn; eauto.
Qed.

(** C5, as the code has it.  The session query answers a session without
    a truthy user reference with an object whose properties are exactly
    clientMaxAge and csrfToken, and a session whose truthy reference the
    fetch resolves to a record with an object whose [user] property has
    exactly the properties name and email, taken from the record.  On the
    wire a property whose value is undefined is left out: csrfToken when
    [res.locals._csrf] is undefined, name when the record has none.
    Whatever the session and the fetch, no response carries any other
    property of a user. *)
Theorem session_info opts w sched :
  1 <= length sched ->
  ((forall k, session_user w = Some k -> truthy (key_value k) = false) ->
   exists body w',
     run sched (session_get opts) w = (Ret tt, w', []) /\
     responses w' = responses w ++ [Json body] /\
     body = Obj [("clientMaxAge", clientMaxAge opts);
                 ("csrfToken", locals_csrf w)]%string /\
     keys body = ["clientMaxAge"; "csrfToken"]%string /\
     prop "user" body = Undefined /\
     prop "user" (jsonify body) = Undefined /\
     keys (jsonify body)
     = ("clientMaxAge" :: match locals_csrf w with
                          | Undefined => []
                          | _ => ["csrfToken"]
                          end)%string) /\
  (forall k u,
     session_user w = Some k -> truthy (key_value k) = true ->
     fetched k w = Some u ->
     exists body w',
       run sched (session_get opts) w = (Ret tt, w', []) /\
       responses w' = responses w ++ [Json body] /\
       keys body = ["user"; "clientMaxAge"; "csrfToken"]%string /\
       prop "user" body = Obj [("name", name u);
                               ("email", Str (email u))]%string /\
       keys (prop "user" body) = ["name"; "email"]%string /\
       prop "clientMaxAge" body = clientMaxAge opts /\
       prop "csrfToken" body = locals_csrf w /\
       keys (prop "user" (jsonify body))
       = match name u with
         | Undefined => ["email"]
         | _ => ["name"; "email"]
         end%string /\
       prop "email" (prop "user" (jsonify body)) = Str (email u)) /\
  (exists w',
     run sched (session_get opts) w = (Ret tt, w', []) /\
     forall r, In r (responses w') ->
       In r (responses w) \/
       exists body, r = Json body /\
         (forall f, In f (keys (prop "user" body)) ->
                    f = "name"%string \/ f = "email"%string) /\
         (forall f, In f (keys (prop "user" (jsonify body))) ->
                    f = "name"%string \/ f = "email"%string)).
Proof.
  intros Hlen. destruct (clientMaxAge_num opts) as [z Hz].
  split; [|split].
  - intros A.
    assert (S : signed_in w = None).
    { unfold signed_in. destruct (session_user w) as [k|]; [|reflexivity].
      now rewrite (A k eq_refl). }
    eexists. eexists.
    split; [apply session_get_run; exact Hlen|].
    rewrite S. rewrite Hz. repeat split;
      destruct (locals_csrf w); reflexivity.
  - intros k u Hk Ht F.
    assert (S : signed_in w = Some k).
    { unfold signed_in. now rewrite Hk, Ht. }
    eexists. eexists.
    split; [apply session_get_run; exact Hlen|].
    rewrite S, F. repeat split.
    + cbn. destruct (name u); reflexivity.
    + cbn. destruct (name u); reflexivity.
  - eexists. split; [apply session_get_run; exact Hlen|].
    intros r.
    destruct (signed_in w) as [k|]; [destruct (fetched k w) as [u|]|];
      cbn; try tauto; rewrite in_app_iff; cbn;
      (intros [Hr|[<-|[]]]; [now left|right]);
      eexists; (split; [reflexivity|]); rewrite ?Hz; cbn.
    + split; [intuition auto|].
      destruct (name u); cbn; intuition auto.
    + split; [intuition auto|].
      destruct (locals_csrf w); cbn; intuition auto.
Qed.


(** * Concrete runs *)

(** Alice redeems her token [T1]. *)
Lemma redeem_valid_witness :
  let opts := defaults in
  let req := redeem_T1 in
  let w := world_of calm [alice] None in
  let sched := [0; 0] in
  let tok := lit "T1" in
  exists u w',
    In u (db w) /\ token u = Some tok /\
    run sched (signin_get opts req) w = (Ret tt, w', []) /\
    db_calls w' = db_calls w ++ [One (ByToken tok); Save (redeemed u)] /\
    token (redeemed u) = None /\ verified (redeemed u) = true /\
    id (redeemed u) = id u /\
    session_user w' = Some (id u) /\
    responses w' = responses w ++ [Redirect (path opts ++ lit "/valid")] /\
    (save_fault (env w) = None ->
     db w' = persist (redeemed u) (db w) /\
     find (has_id (id u)) (db w') = Some (redeemed u)).
Proof.
  intros opts req w sched tok.
  apply (redeem_valid opts req w sched tok alice).
  - reflexivity.
  - discriminate.
  - left; reflexivity.
  - reflexivity.
  - reflexivity.
  - apply le_n.
Defined.


(** Alice redeems [T1], then the same link is visited again. *)
Lemma redeem_once_witness :
  let opts := defaults in
  let req := redeem_T1 in
  let w := world_of calm [alice] None in
  let tok := lit "T1" in
  exists w1 w2,
    run [0; 0] (signin_get opts req) w = (Ret tt, w1, []) /\
    responses w1 = responses w ++ [Redirect (path opts ++ lit "/valid")] /\
    (forall r, In r (db w1) -> token r <> Some tok) /\
    run [0] (signin_get opts req) (with_env calm w1) = (Ret tt, w2, []) /\
    responses w2 = responses w1 ++ [Redirect (path opts ++ lit "/invalid")] /\
    session_user w2 = session_user w1 /\
    db w2 = db w1.
Proof.
  intros opts req w tok.
  apply (redeem_once opts req w [0; 0] [0] calm tok alice).
  - reflexivity.
  - discriminate.
  - left; reflexivity.
  - reflexivity.
  - intros r [<-|[]] _. reflexivity.
  - reflexivity.
  - reflexivity.
  - apply le_n.
  - apply le_n.
Defined.

(** Alice asks for a new link. *)
Lemma issue_token_witness :
  let opts := defaults in
  let req := post_alice in
  let w := world_of calm [alice] None in
  let sched := [0; 1; 0] in
  let e := lit "alice@example.com" in
  exists o w' u',
    run sched (signin_post opts req) w = (o, w', []) /\
    find (matches (ByEmail e)) (db w') = Some u' /\
    In u' (db w') /\ email u' = e /\ token u' = Some (uuid_v4 (env w)) /\
    match find (matches (ByEmail e)) (db w) with
    | Some u =>
        u' = set_token (Some (uuid_v4 (env w))) u /\
        db w' = persist u' (db w)
    | None =>
        u' = created w e (uuid_v4 (env w)) /\
        db w' = db w ++ [u']
    end /\
    uncaught w' = uncaught w /\
    match headers_host req with
    | Some _ =>
        o = Ret tt /\
        responses w'
        = responses w ++ [Render (pages opts ++ lit "/check-email")]
    | None => True
    end.
Proof.
  intros opts req w sched e.
  apply (issue_token opts req w sched e).
  - reflexivity.
  - vm_compute. discriminate.
  - reflexivity.
  - reflexivity.
  - reflexivity.
  - apply le_n.
Defined.



(** The middleware on a session that refers to a deleted account. *)
Lemma expose_user_never_fails_witness :
  let w := world_of calm [alice] (Some (KNum 9)) in
  let sched := [0] in
  exists w',
    run sched expose_user w = (Ret tt, w', []) /\
    nexts w' = S (nexts w) /\
    uncaught w' = uncaught w /\
    responses w' = responses w /\
    locals_user w'
    = match signed_in w with
      | None => locals_user w
      | Some k =>
          match fetched k w with
          | Some u => Some (Obj [("name", name u);
                                 ("email", Str (email u))]%string)
          | None => locals_user w
          end
      end.
Proof.
  intros w sched.
  apply (expose_user_never_fails w sched).
  apply le_n.
Defined.

(** The session query, for a visitor and for Alice. *)
Lemma session_info_witness :
  (exists body w',
     run [0] (session_get defaults) (world_of calm [alice] None)
     = (Ret tt, w', []) /\
     responses w' = [Json body] /\
     keys body = ["clientMaxAge"; "csrfToken"]%string) /\
  (exists body w',
     run [0] (session_get defaults) (world_of calm [alice] (Some (KNum 1)))
     = (Ret tt, w', []) /\
     responses w' = [Json body] /\
     prop "user" body = Obj [("name", Str (lit "Alice"));
                             ("email", Str (lit "alice@example.com"))]%string).
Proof.
  split.
  - destruct (session_info defaults (world_of calm [alice] None) [0]
                (le_n 1)) as (H & _ & _).
    destruct (H ltac:(discriminate)) as (body & w' & R & Hr & _ & Hk & _).
    exists body, w'. repeat split; assumption.
  - destruct (session_info defaults (world_of calm [alice] (Some (KNum 1)))
                [0] (le_n 1)) as (_ & H & _).
    destruct (H (KNum 1) alice eq_refl eq_refl eq_refl)
      as (body & w' & R & Hr & _ & Hu & _).
    exists body, w'. repeat split; assumption.
Defined.


(** Alice signs out. *)
Lemma signout_clears_witness :
  let w := world_of calm [alice] (Some (KNum 1)) in
  exists w',
    run [] signout w = (Ret tt, w', []) /\
    session_user w' = None /\
    responses w' = [Redirect (lit "/")].
Proof.
  intros w.
  destruct (signout_clears w []) as (w' & R & Hs & _ & _ & _ & Hr & _).
  exists w'. split; [exact R|]. split; [exact Hs | exact Hr].
Defined.

(** ** Where the claims as worded fail *)

(** C1 as worded.  Alice holds the token [T1] and follows her link while
    the lookups fail: she is redirected to invalid, her token is not
    cleared and the session is not bound. *)
Lemma lookup_error_redirects_invalid :
  exists w',
    run [0; 0] (signin_get defaults redeem_T1)
        (world_of failing_lookup [alice] None) = (Ret tt, w', []) /\
    In alice (db (world_of failing_lookup [alice] None)) /\
    token alice = params_token redeem_T1 /\
    responses w' = [Redirect (lit "/auth/invalid")] /\
    responses w' <> [Redirect (lit "/auth/valid")] /\
    session_user w' = None /\
    db w' = [alice] /\
    db_calls w' = [One (ByToken (lit "T1"))].
Proof.
  eexists. split; [vm_compute; reflexivity|].
  repeat split; try (left; reflexivity). vm_compute. discriminate.
Qed.

(** C3 as worded.  A stranger asks for a link while the storage refuses
    to create: no record has the address afterwards.  Bob, who has no
    pending token, asks for one while the storage refuses to save: his
    token is still null.  Both are shown the check-email page. *)
Lemma storage_errors_leave_no_token :
  (exists w',
     run [0; 0; 0] (signin_post defaults post_alice)
         (world_of failing_create [] None) = (Ret tt, w', []) /\
     responses w' = [Render (lit "auth/check-email")] /\
     db w' = [] /\
     find (matches (ByEmail (lit "alice@example.com"))) (db w') = None) /\
  (exists w',
     run [0; 0; 0] (signin_post defaults post_bob)
         (world_of failing_save [bob] None) = (Ret tt, w', []) /\
     responses w' = [Render (lit "auth/check-email")] /\
     db w' = [bob] /\
     find (matches (ByEmail (lit "bob@example.com"))) (db w') = Some bob /\
     token bob = None).
Proof.
  split; eexists; (split; [vm_compute; reflexivity|]); repeat split.
Qed.

(** C5 as worded.  A session bound to the stored user with identifier 0
    gets the visitor's answer, without a user; Carol, who has no name,
    gets a user with her email only on the wire; a session bound to an
    account that is gone gets no answer. *)
Lemma session_query_exceptions :
  (exists w' body,
     run [0] (session_get defaults) (world_of calm [nobody] (Some (KNum 0)))
     = (Ret tt, w', []) /\
     find (has_id (KNum 0)) (db w') = Some nobody /\
     responses w' = [Json body] /\
     keys body = ["clientMaxAge"; "csrfToken"]%string /\
     prop "user" body = Undefined) /\
  (exists w' body,
     run [0] (session_get defaults) (world_of calm [carol] (Some (KNum 3)))
     = (Ret tt, w', []) /\
     responses w' = [Json body] /\
     keys (prop "user" (jsonify body)) = ["email"]%string /\
     keys (prop "user" (jsonify body)) <> ["name"; "email"]%string) /\
  (exists w',
     run [0] (session_get defaults) (world_of calm [alice] (Some (KNum 9)))
     = (Ret tt, w', []) /\
     responses w' = [] /\
     uncaught w' = [TypeError "name"]).
Proof.
  split; [|split].
  - eexists. eexists. split; [vm_compute; reflexivity|]. repeat split.
  - eexists. eexists. split; [vm_compute; reflexivity|].
    split; [reflexivity|]. split; [reflexivity|]. discriminate.
  - eexists. split; [vm_compute; reflexivity|]. repeat split.
Qed.

(** C6 as worded.  A session bound to the user with identifier 0 signs
    out: the reference is still there. *)
Lemma signout_keeps_falsy_reference :
  exists w',
    run [] signout (world_of calm [nobody] (Some (KNum 0)))
    = (Ret tt, w', []) /\
    session_user w' = Some (KNum 0) /\
    session_user w' <> None /\
    responses w' = [Redirect (lit "/")].
Proof.
  eexists. split; [vm_compute; reflexivity|].
  repeat split. discriminate.
Qed.

(** C2 as worded.  The storage refuses the save of the first redemption,
    which redirects to valid all the same; the token stays stored and the
    same link signs in a second time. *)
Lemma replay_after_failed_save :
  let w1 := snd (fst (run [0; 0] (signin_get defaults redeem_T1)
                          (world_of failing_save [alice] None))) in
  let w2 := snd (fst (run [0; 0] (signin_get defaults redeem_T1)
                          (with_env calm w1))) in
  responses w1 = [Redirect (lit "/auth/valid")] /\
  db w1 = [alice] /\
  responses w2 = [Redirect (lit "/auth/valid"); Redirect (lit "/auth/valid")] /\
  responses w2 <> responses w1 ++ [Redirect (lit "/auth/invalid")] /\
  session_user w2 = Some (KNum 1) /\
  db w2 = [redeemed alice].
Proof. vm_compute. repeat split. discriminate. Qed.



(** * Further properties *)

(** ** escape *)

Lemma backslash_special (c : N) :
  regex_special c = false -> N.eqb c 92 = false.
Proof.
  intros H. destruct (N.eqb_spec c 92) as [->|]; [|reflexivity].
  vm_compute in H. discriminate.
Qed.

Lemma escape_app (a b : jsstring) : escape (a ++ b) = escape a ++ escape b.
Proof.
  induction a as [|c a IH]; cbn; [reflexivity|].
  destruct (regex_special c); cbn; now rewrite IH.
Qed.

(** X1.  Reading an escaped string back gives the string: [escape] loses
    nothing, and two strings with the same escape are the same string. *)
Theorem escape_round_trip (s t : jsstring) :
  unescape (escape s) = s /\
  (escape s = escape t <-> s = t).
Proof.
  assert (R : forall x, unescape (escape x) = x).
  { induction x as [|c x IH]; [reflexivity|]. cbn [escape].
    destruct (regex_special c) eqn:E.
    - cbn [unescape]. rewrite N.eqb_refl. now rewrite IH.
    - cbn [unescape]. rewrite (backslash_special c E). now rewrite IH. }
  split; [apply R|]. split; [|now intros ->].
  intros H. rewrite <- (R s), <- (R t). now rewrite H.
Qed.

(** X2.  The escape of a string is as long as the string plus the number
    of its special characters: never shorter than the string, never more
    than twice as long. *)
Theorem escape_length (s : jsstring) :
  length (escape s) = length s + length (List.filter regex_special s) /\
  length s <= length (escape s) <= 2 * length s.
Proof.
  assert (L : length (escape s) = length s + length (List.filter regex_special s)).
  { induction s as [|c s IH]; [reflexivity|]. cbn [escape List.filter length].
    destruct (regex_special c); cbn [length]; rewrite IH; lia. }
  split; [exact L|].
  pose proof (List.filter_length_le regex_special s). lia.
Qed.

(** X3.  [escape] leaves a string as it is exactly when the string has no
    special character. *)
Theorem escape_fixed (s : jsstring) :
  escape s = s <-> forallb (fun c => negb (regex_special c)) s = true.
Proof.
  split.
  - intros H.
    assert (L : length (List.filter regex_special s) = 0).
    { pose proof (proj1 (escape_length s)) as E. rewrite H in E. lia. }
    apply forallb_forall. intros c Hc.
    destruct (regex_special c) eqn:E; [|reflexivity].
    assert (Hin : In c (List.filter regex_special s)) by (apply filter_In; auto).
    destruct (List.filter regex_special s); [contradiction | discriminate].
  - induction s as [|c s IH]; [reflexivity|]. cbn.
    intros H. apply andb_true_iff in H. destruct H as [Hc Hs].
    destruct (regex_special c); [discriminate|]. now rewrite IH.
Qed.

(** ** The options *)

Lemma prop_truthy (k : string) (v : value) :
  truthy (prop k v) = true -> truthy v = true.
Proof. destruct v; cbn; try discriminate; auto. Qed.

(** X4.  [configure] goes ahead exactly when [options.db.models.user] is
    there and truthy; options that are missing, or that are not an object,
    are refused like an empty object. *)
Theorem configure_check_user_model (options : value) :
  (configure_check options = Configured <->
   truthy (prop "user" (prop "models" (prop "db" options))) = true) /\
  (configure_check options = Configured \/
   configure_check options
   = Refused (lit "Database with user model is a required option!")).
Proof.
  unfold configure_check. split.
  - destruct (truthy options) eqn:T.
    + destruct (truthy (prop "user" (prop "models" (prop "db" options))))
        eqn:U.
      * pose proof (prop_truthy _ _ U) as Hm.
        pose proof (prop_truthy _ _ Hm) as Hd.
        rewrite Hm, Hd. cbn. tauto.
      * rewrite !orb_true_r. split; discriminate.
    + assert (U : truthy (prop "user" (prop "models" (prop "db" options)))
                  = false).
      { destruct options; cbn in *; try reflexivity; discriminate. }
      rewrite U. cbn. split; discriminate.
  - match goal with |- context [if ?b then _ else _] => destruct b end; auto.
Qed.


(** ** Requests that the handlers turn away *)

Lemma trim_start_nil (s : jsstring) :
  trim_start s = [] <-> forallb is_space s = true.
Proof.
  induction s as [|c s IH]; cbn [trim_start forallb]; [tauto|].
  destruct (is_space c); cbn [andb]; [exact IH|].
  split; discriminate.
Qed.

Lemma trim_start_head (s r : jsstring) (c : N) :
  trim_start s = c :: r -> is_space c = false.
Proof.
  induction s as [|x s IH]; cbn [trim_start]; [discriminate|].
  destruct (is_space x) eqn:E; [exact IH|].
  intros [= <- _]. exact E.
Qed.

(** A string trims to the empty string exactly when it is white space
    throughout. *)
Lemma trim_nil (s : jsstring) : trim s = [] <-> forallb is_space s = true.
Proof.
  unfold trim. split.
  - intros H. apply trim_start_nil.
    destruct (trim_start s) as [|c r] eqn:T; [reflexivity|].
    apply (f_equal (@rev N)) in H. rewrite rev_involutive in H.
    cbn [rev] in H. apply trim_start_nil in H.
    rewrite forallb_forall in H.
    pose proof (trim_start_head s r c T) as Hc.
    rewrite (H c) in Hc; [discriminate|].
    apply in_or_app. right. now left.
  - intros H. apply trim_start_nil in H. now rewrite H.
Qed.

(** X6.  An issuance request with no email, a falsy email or an email of
    white space only gets the sign-in page again, and nothing else
    happens: no storage call, no mail, no change to the session. *)
Theorem signin_post_blank opts req w sched :
  blank_email (body_email req) ->
  run sched (signin_post opts req) w =
  (Ret tt,
   with_responses (responses w ++ [Render (pages opts ++ lit "/signin")]) w,
   []).
Proof.
  intros [F | (s & E & B)]; unfold run, signin_post.
  - unfold JS.or. rewrite F. cbn. now rewrite drain_nil.
  - rewrite E. apply trim_nil in B.
    destruct s as [|c s]; [cbn; now rewrite drain_nil|].
    cbn [JS.or truthy]. rewrite B. cbn. now rewrite drain_nil.
Qed.

(** X7.  An issuance request whose email is truthy but not a string (a
    number, [true], an object or array of the parsed body) makes the
    handler throw on [email.trim]: nothing is rendered, stored or
    mailed. *)
Theorem signin_post_not_a_string opts req w sched :
  truthy (body_email req) = true ->
  (forall s, body_email req <> Str s) ->
  run sched (signin_post opts req) w = (Throw (TypeError "trim"), w, []).
Proof.
  intros T N. unfold run, signin_post, JS.or. rewrite T.
  destruct (body_email req) as [| |b|z|s|fields] eqn:E;
    try discriminate; try (now elim (N s));
    cbn in T |- *; rewrite ?T; cbn; now rewrite drain_nil.
Qed.

(** X8.  A redemption request without a token, or with an empty one, is
    redirected to the sign-in page without any storage call. *)
Theorem signin_get_no_token opts req w sched :
  params_token req = None \/ params_token req = Some [] ->
  run sched (signin_get opts req) w =
  (Ret tt,
   with_responses (responses w ++ [Redirect (path opts ++ lit "/signin")]) w,
   []).
Proof.
  intros [H|H]; unfold run, signin_get; rewrite H; cbn;
    now rewrite drain_nil.
Qed.

(** X9.  A redemption request whose token no stored record carries, or
    whose lookup reports an error, is redirected to [{base}/invalid]; the
    session and the stored records stay as they are, and nothing is
    saved. *)
Theorem signin_get_unknown opts req w sched tok :
  params_token req = Some tok -> tok <> [] ->
  (one_fault (env w) <> None \/
   forall r, In r (db w) -> token r <> Some tok) ->
  1 <= length sched ->
  run sched (signin_get opts req) w =
  (Ret tt,
   with_responses (responses w ++ [Redirect (path opts ++ lit "/invalid")])
     (with_db_calls (db_calls w ++ [One (ByToken tok)]) w),
   []).
Proof.
  intros Htok Hne H Hlen. apply signin_get_missing; try assumption.
  unfold delivered. destruct (one_fault (env w)) as [e|]; [reflexivity|].
  destruct H as [H|H]; [congruence|].
  apply find_none_of. intros r Hr.
  destruct (matches (ByToken tok) r) eqn:E; [|reflexivity].
  apply matches_token in E. now apply H in E.
Qed.

(** ** What the handlers leave alone *)

Lemma persist_ids (u : user) (d : list user) :
  map id (persist u d) = map id d.
Proof.
  unfold persist.
  induction d as [|r d IH]; cbn [map]; [reflexivity|]. rewrite IH.
  destruct (has_id (id u) r) eqn:E; [|reflexivity].
  apply key_eqb_eq in E. now rewrite E.
Qed.

Lemma persist_other (u r : user) (d : list user) :
  In r d -> has_id (id u) r = false -> In r (persist u d).
Proof.
  intros Hin E. apply in_map_iff. exists r. now rewrite E.
Qed.

Lemma persist_in (u r : user) (d : list user) :
  In r (persist u d) -> r = u \/ In r d.
Proof.
  intros H. apply in_map_iff in H. destruct H as (r0 & <- & Hr0).
  destruct (has_id (id u) r0); auto.
Qed.

Lemma delivered_some (flt : filter) (w : world) (u : user) :
  delivered flt w = Some u -> In u (db w) /\ matches flt u = true.
Proof.
  unfold delivered. destruct (one_fault (env w)); [discriminate|].
  apply one_found.
Qed.

(** X10.  Whatever the storage answers, a redemption never adds or removes
    a record and never changes an identifier; a record is left untouched
    unless it has the identifier of a record that carries the token; and
    redemption sends no mail and writes nothing to the console. *)
Theorem signin_get_keeps_others opts req w sched tok :
  params_token req = Some tok -> tok <> [] ->
  2 <= length sched ->
  exists w',
    run sched (signin_get opts req) w = (Ret tt, w', []) /\
    map id (db w') = map id (db w) /\
    (forall r, In r (db w) ->
       (forall r0, In r0 (db w) -> token r0 = Some tok -> id r0 <> id r) ->
       In r (db w')) /\
    outbox w' = outbox w /\ console w' = console w /\
    uncaught w' = uncaught w.
Proof.
  intros Htok Hne Hlen.
  destruct (delivered (ByToken tok) w) as [u|] eqn:D.
  - destruct (delivered_some _ _ _ D) as [Hu Hm].
    apply matches_token in Hm.
    eexists. split; [apply signin_get_found; eassumption|].
    cbn. destruct (save_fault (env w)); repeat split; auto.
    + apply persist_ids.
    + intros r Hr Hother. apply persist_other; [exact Hr|].
      unfold has_id. cbn.
      destruct (key_eqb (id r) (id u)) eqn:E; [|reflexivity].
      apply key_eqb_eq in E. elim (Hother u Hu Hm). now symmetry.
  - eexists. split; [apply signin_get_missing; try eassumption; lia|].
    cbn. repeat split; auto.
Qed.

(** Where an issuance request with a non-blank email ends, with or
    without a Host header. *)
Lemma signin_post_ends opts req w sched e :
  body_email req = Str e -> trim e <> [] ->
  3 <= length sched ->
  exists o w',
    run sched (signin_post opts req) w = (o, w', []) /\
    db w' = issuance_db w e /\
    session_user w' = session_user w /\
    locals_user w' = locals_user w.
Proof.
  intros He Hnb Hlen.
  destruct (headers_host req) as [h|] eqn:Hh; eexists; eexists.
  - split; [apply signin_post_run; eassumption|]. repeat split.
  - split; [apply signin_post_no_host; try eassumption; lia|]. repeat split.
Qed.

(** X11.  Whatever the storage and the mail transport answer, an issuance
    request signs nobody in, adds at most one record and changes no
    identifier, leaves a record untouched unless it has the identifier of
    a record with that email, and verifies nobody. *)
Theorem signin_post_keeps_others opts req w sched e :
  body_email req = Str e -> trim e <> [] ->
  3 <= length sched ->
  exists o w' added,
    run sched (signin_post opts req) w = (o, w', []) /\
    session_user w' = session_user w /\
    map id (db w') = map id (db w) ++ added /\ length added <= 1 /\
    (forall r, In r (db w) ->
       (forall r0, In r0 (db w) -> email r0 = e -> id r0 <> id r) ->
       In r (db w')) /\
    (forall r', In r' (db w') -> verified r' = true ->
       exists r, In r (db w) /\ id r = id r' /\ verified r = true).
Proof.
  intros He Hnb Hlen.
  destruct (signin_post_ends opts req w sched e He Hnb Hlen)
    as (o & w' & R & Hdb & Hs & _).
  exists o, w'. rewrite Hdb. unfold issuance_db.
  destruct (delivered (ByEmail e) w) as [u|] eqn:D.
  - destruct (delivered_some _ _ _ D) as [Hu Hm].
    apply matches_email in Hm.
    exists []. rewrite app_nil_r.
    destruct (save_fault (env w)).
    + repeat split; auto. intros r' Hr' Hv. exists r'. auto.
    + repeat split; auto.
      * apply persist_ids.
      * intros r Hr Hother. apply persist_other; [exact Hr|].
        unfold has_id. cbn.
        destruct (key_eqb (id r) (id u)) eqn:E; [|reflexivity].
        apply key_eqb_eq in E. elim (Hother u Hu Hm). now symmetry.
      * intros r' Hr' Hv. apply persist_in in Hr'.
        destruct Hr' as [-> | Hr']; [exists u | exists r']; auto.
  - destruct (create_fault (env w)).
    + exists []. rewrite app_nil_r. repeat split; auto.
      intros r' Hr' Hv. exists r'. auto.
    + exists [assigned_id (env w)]. repeat split; auto.
      * now rewrite map_app.
      * intros r Hr _. apply in_or_app. now left.
      * intros r' Hr' Hv. apply in_app_or in Hr'.
        destruct Hr' as [Hr' | [<- | []]]; [exists r'; auto|].
        discriminate.
Qed.

(** X12.  The session query, the CSRF query, the session-user middleware
    and sign-out never change a stored record, and the first three never
    change the session, at whatever point of the schedule one looks. *)
Theorem read_only_routes opts w sched :
  db (snd (fst (run sched (session_get opts) w))) = db w /\
  db (snd (fst (run sched csrf_get w))) = db w /\
  db (snd (fst (run sched expose_user w))) = db w /\
  db (snd (fst (run sched signout w))) = db w /\
  session_user (snd (fst (run sched (session_get opts) w))) = session_user w /\
  session_user (snd (fst (run sched csrf_get w))) = session_user w /\
  session_user (snd (fst (run sched expose_user w))) = session_user w.
Proof.
  unfold run, session_get, csrf_get, expose_user, signout.
  destruct sched as [|n sched]; destruct (signed_in w) eqn:S;
    answers w; rewrite ?S; answers w; repeat split.
Qed.

(** ** Requests in sequence *)

Lemma persist_in_other (u r : user) (d : list user) :
  In r (persist u d) -> r = u \/ (In r d /\ has_id (id u) r = false).
Proof.
  intros H. apply in_map_iff in H. destruct H as (r0 & <- & Hr0).
  destruct (has_id (id u) r0) eqn:E; auto.
Qed.




(** X14.  Issuing a new token for a user kills the old link: once the new
    token is saved, a redemption request with the old one is redirected
    to [{base}/invalid] and signs nobody in. *)
Theorem reissue_kills_old_link opts req1 req2 w s1 s2 o2 e u old :
  body_email req1 = Str e -> trim e <> [] ->
  one_fault (env w) = None ->
  save_fault (env w) = None ->
  find (matches (ByEmail e)) (db w) = Some u ->
  token u = Some old -> old <> [] ->
  old <> uuid_v4 (env w) ->
  (forall r, In r (db w) -> token r = Some old -> id r = id u) ->
  params_token req2 = Some old ->
  3 <= length s1 -> 1 <= length s2 ->
  exists o w1 w2,
    run s1 (signin_post opts req1) w = (o, w1, []) /\
    (forall r, In r (db w1) -> token r <> Some old) /\
    run s2 (signin_get opts req2) (with_env o2 w1) = (Ret tt, w2, []) /\
    responses w2
    = responses w1 ++ [Redirect (path opts ++ lit "/invalid")] /\
    session_user w2 = session_user w /\
    db w2 = db w1.
Proof.
  intros He Hnb Hone Hsave F Hold Hne Hnew Huniq Hp Hl1 Hl2.
  destruct (signin_post_ends opts req1 w s1 e He Hnb Hl1)
    as (o & w1 & R1 & Hdb & Hs & _).
  assert (Hclear : forall r, In r (db w1) -> token r <> Some old).
  { rewrite Hdb. unfold issuance_db, delivered. rewrite Hone, F, Hsave.
    intros r Hr. apply persist_in_other in Hr.
    destruct Hr as [-> | [Hr E]]; [cbn; congruence|].
    intros Ht. unfold has_id in E. cbn in E.
    rewrite (Huniq r Hr Ht), key_eqb_refl in E. discriminate. }
  assert (D : delivered (ByToken old) (with_env o2 w1) = None).
  { unfold delivered. cbn. destruct (one_fault o2); [reflexivity|].
    apply find_none_of. intros r Hr.
    destruct (matches (ByToken old) r) eqn:E; [|reflexivity].
    apply matches_token in E. now apply Hclear in E. }
  pose proof (signin_get_missing opts req2 (with_env o2 w1) s2 old
                Hp Hne D Hl2) as R2.
  exists o, w1. eexists. split; [exact R1|]. split; [exact Hclear|].
  split; [exact R2|]. cbn. repeat split. exact Hs.
Qed.

Lemma session_get_anonymous opts w sched :
  signed_in w = None ->
  run sched (session_get opts) w =
  (Ret tt,
   with_responses
     (responses w ++
      [Json (Obj [("clientMaxAge", clientMaxAge opts);
                  ("csrfToken", locals_csrf w)]%string)]) w,
   []).
Proof.
  intros S. unfold run, session_get. cbn. rewrite S. cbn.
  now rewrite drain_nil.
Qed.

(** X15.  A user whose identifier is falsy (the number 0, the empty
    string) is never seen as signed in: a successful redemption binds the
    session to the identifier, and the session query that follows still
    answers as for a visitor, without looking the user up. *)
Theorem falsy_id_not_signed_in opts req w s1 s2 o2 tok u :
  params_token req = Some tok -> tok <> [] ->
  delivered (ByToken tok) w = Some u ->
  truthy (key_value (id u)) = false ->
  2 <= length s1 ->
  exists w1 w2,
    run s1 (signin_get opts req) w = (Ret tt, w1, []) /\
    session_user w1 = Some (id u) /\
    signed_in w1 = None /\
    run s2 (session_get opts) (with_env o2 w1) = (Ret tt, w2, []) /\
    responses w2
    = responses w ++
      [Redirect (path opts ++ lit "/valid");
       Json (Obj [("clientMaxAge", clientMaxAge opts);
                  ("csrfToken", locals_csrf w)]%string)] /\
    db_calls w2 = db_calls w1.
Proof.
  intros Hp Hne D Hf Hl1.
  pose proof (signin_get_found opts req w s1 tok u Hp Hne D Hl1) as R1.
  match type of R1 with _ = (_, ?x, _) => set (w1 := x) in * end.
  assert (S : signed_in (with_env o2 w1) = None).
  { unfold signed_in. cbn. now rewrite Hf. }
  exists w1. eexists. split; [exact R1|]. split; [reflexivity|].
  split; [exact S|].
  split; [apply session_get_anonymous; exact S|].
  cbn. rewrite <- app_assoc. repeat split.
Qed.

(** X16.  After a redemption that the storage has saved, for a user with
    a truthy identifier, the session query reports that user's name and
    email. *)
Theorem redeem_then_session opts req w s1 s2 o2 tok u :
  params_token req = Some tok -> tok <> [] ->
  delivered (ByToken tok) w = Some u ->
  save_fault (env w) = None ->
  truthy (key_value (id u)) = true ->
  get_fault o2 = None ->
  2 <= length s1 -> 1 <= length s2 ->
  exists w1 w2,
    run s1 (signin_get opts req) w = (Ret tt, w1, []) /\
    run s2 (session_get opts) (with_env o2 w1) = (Ret tt, w2, []) /\
    responses w2
    = responses w ++
      [Redirect (path opts ++ lit "/valid");
       Json (Obj [("user", Obj [("name", name u);
                                ("email", Str (email u))]);
                  ("clientMaxAge", clientMaxAge opts);
                  ("csrfToken", locals_csrf w)]%string)].
Proof.
  intros Hp Hne D Hsave Ht Hg Hl1 Hl2.
  destruct (delivered_some _ _ _ D) as [Hu _].
  pose proof (signin_get_found opts req w s1 tok u Hp Hne D Hl1) as R1.
  rewrite Hsave in R1.
  match type of R1 with _ = (_, ?x, _) => set (w1 := x) in * end.
  assert (S : signed_in (with_env o2 w1) = Some (id u)).
  { unfold signed_in. cbn. now rewrite Ht. }
  assert (F : fetched (id u) (with_env o2 w1) = Some (redeemed u)).
  { unfold fetched. cbn. rewrite Hg.
    exact (find_id_persist (redeemed u) (db w) u Hu eq_refl). }
  pose proof (session_get_run opts (with_env o2 w1) s2 Hl2) as R2.
  rewrite S, F in R2.
  exists w1. eexists. split; [exact R1|]. split; [exact R2|].
  cbn. now rewrite <- app_assoc.
Qed.

(** X17.  After sign-out the session query answers as for a visitor,
    whoever was signed in, and looks nobody up. *)
Theorem signout_then_session opts w s1 s2 :
  exists w1 w2,
    run s1 signout w = (Ret tt, w1, []) /\
    run s2 (session_get opts) w1 = (Ret tt, w2, []) /\
    responses w2
    = responses w ++
      [Redirect (lit "/");
       Json (Obj [("clientMaxAge", clientMaxAge opts);
                  ("csrfToken", locals_csrf w)]%string)] /\
    db_calls w2 = db_calls w.
Proof.
  assert (R1 : exists w1, run s1 signout w = (Ret tt, w1, []) /\
                          signed_in w1 = None /\
                          responses w1 = responses w ++ [Redirect (lit "/")] /\
                          locals_csrf w1 = locals_csrf w /\
                          db_calls w1 = db_calls w).
  { unfold run, signout. cbn.
    destruct (signed_in w) eqn:S; turns; eexists;
      (split; [reflexivity|]); cbn; repeat split. exact S. }
  destruct R1 as (w1 & R1 & S & Hr & Hc & Hd).
  exists w1. eexists. split; [exact R1|].
  split; [apply session_get_anonymous; exact S|].
  cbn. rewrite Hr, Hc, <- app_assoc. split; [reflexivity | exact Hd].
Qed.

(** X18.  The middleware and the session query expose the same thing:
    for a signed-in session whose record the fetch delivers,
    [res.locals.user] after the middleware is the [user] property of the
    session query's answer. *)
Theorem middleware_agrees_with_session opts w sched k u :
  signed_in w = Some k -> fetched k w = Some u ->
  1 <= length sched ->
  exists w1 w2 body,
    run sched expose_user w = (Ret tt, w1, []) /\
    run sched (session_get opts) w = (Ret tt, w2, []) /\
    responses w2 = responses w ++ [Json body] /\
    locals_user w1 = Some (prop "user" body).
Proof.
  intros S F Hlen.
  pose proof (expose_user_run w sched Hlen) as R1.
  pose proof (session_get_run opts w sched Hlen) as R2.
  rewrite S, F in R1, R2.
  eexists. eexists. eexists. split; [exact R1|]. split; [exact R2|].
  split; reflexivity.
Qed.

(** X19.  The order in which the storage and the mail transport complete
    does not matter to an issuance: any two schedules that let the three
    callbacks run end in the same world. *)
Theorem issuance_order_irrelevant opts req w s1 s2 e :
  body_email req = Str e -> trim e <> [] ->
  3 <= length s1 -> 3 <= length s2 ->
  run s1 (signin_post opts req) w = run s2 (signin_post opts req) w.
Proof.
  intros He Hnb H1 H2.
  destruct (headers_host req) as [h|] eqn:Hh.
  - rewrite (signin_post_run opts req w s1 e h He Hnb Hh H1).
    now rewrite (signin_post_run opts req w s2 e h He Hnb Hh H2).
  - rewrite (signin_post_no_host opts req w s1 e He Hnb Hh); [|lia].
    rewrite (signin_post_no_host opts req w s2 e He Hnb Hh); [|lia].
    reflexivity.
Qed.

(** ** What the mail takes from the request *)

Lemma split_first_prefix (sep : N) (s : jsstring) :
  exists d rest,
    nth_error (split sep s) 0 = Some d /\
    s = d ++ rest /\
    ~ In sep d /\
    (rest = [] \/ hd_error rest = Some sep).
Proof.
  induction s as [|c s IH].
  - exists [], []. cbn. auto.
  - cbn [split]. destruct (N.eqb_spec c sep) as [->|Hc].
    + exists [], (sep :: s). cbn. auto.
    + destruct IH as (d & rest & Hd & Hs & Hn & Hr).
      destruct (split sep s) as [|x l]; [discriminate|].
      cbn in Hd. injection Hd as ->.
      exists (c :: d), rest. cbn. repeat split; auto.
      * now rewrite Hs.
      * intros [H|H]; [congruence | contradiction].
Qed.

(** X20.  The from address of the sign-in mail is [noreply@] followed by
    the Host header up to its first colon: the port, if there is one, is
    left out. *)
Theorem from_address_without_port opts req w sched e h :
  body_email req = Str e -> trim e <> [] ->
  headers_host req = Some h ->
  3 <= length sched ->
  exists w' m d rest,
    run sched (signin_post opts req) w = (Ret tt, w', []) /\
    outbox w' = outbox w ++ [m] /\
    mail_to m = e /\
    mail_subject m = lit "Sign in link" /\
    mail_from m = lit "noreply@" ++ d /\
    h = d ++ rest /\
    ~ In 58%N d /\
    (rest = [] \/ hd_error rest = Some 58%N).
Proof.
  intros He Hnb Hh Hlen.
  destruct (split_first_prefix 58 h) as (d & rest & Hd & Hs & Hn & Hr).
  eexists. exists (signin_mail opts req w e h), d, rest.
  split; [apply signin_post_run; eassumption|].
  split; [reflexivity|]. split; [reflexivity|]. split; [reflexivity|].
  split; [cbn [signin_mail mail_from]; now rewrite Hd|].
  auto.
Qed.

(** X21.  Where the mailed link points: to the configured serverUrl when
    there is one, whatever the request says, and otherwise to [http://]
    followed by the request's Host header as it came; in both cases the
    path is the redemption route with the token drawn for this
    request. *)
Theorem mailed_link opts req w sched e h :
  body_email req = Str e -> trim e <> [] ->
  headers_host req = Some h ->
  3 <= length sched ->
  exists w' m,
    run sched (signin_post opts req) w = (Ret tt, w', []) /\
    outbox w' = outbox w ++ [m] /\
    mail_text m
    = lit "Use the link below to sign in:" ++ [10; 10]%N
      ++ match opt_serverUrl opts with
         | Some (c :: s) => c :: s
         | _ => lit "http://" ++ h
         end
      ++ str_or (opt_path opts) (lit "/auth")
      ++ lit "/email/signin/" ++ uuid_v4 (env w)
      ++ [10; 10]%N.
Proof.
  intros He Hnb Hh Hlen.
  eexists. exists (signin_mail opts req w e h).
  split; [apply signin_post_run; eassumption|].
  split; [reflexivity|].
  cbn [signin_mail mail_text]. unfold verificationUrl, serverUrl, path.
  rewrite Hh. cbn [to_string].
  destruct (opt_serverUrl opts) as [[|c s]|];
    rewrite <- ?app_assoc; reflexivity.
Qed.


(** * Further concrete runs *)

(** Three spaces for an email. *)
Lemma signin_post_blank_witness :
  run [] (signin_post defaults post_spaces) (world_of calm [alice] None) =
  (Ret tt,
   with_responses
     (responses (world_of calm [alice] None)
      ++ [Render (pages defaults ++ lit "/signin")])
     (world_of calm [alice] None),
   []).
Proof.
  apply (signin_post_blank defaults post_spaces (world_of calm [alice] None) []).
  right. exists (lit "   "). split; reflexivity.
Defined.

(** The number 5 for an email. *)
Lemma signin_post_not_a_string_witness :
  run [0] (signin_post defaults post_number) (world_of calm [alice] None)
  = (Throw (TypeError "trim"), world_of calm [alice] None, []).
Proof.
  apply (signin_post_not_a_string defaults post_number
           (world_of calm [alice] None) [0]).
  - reflexivity.
  - intros s. discriminate.
Defined.

Lemma signin_get_no_token_witness :
  run [0] (signin_get defaults redeem_nothing) (world_of calm [alice] None) =
  (Ret tt,
   with_responses
     (responses (world_of calm [alice] None)
      ++ [Redirect (path defaults ++ lit "/signin")])
     (world_of calm [alice] None),
   []).
Proof.
  apply (signin_get_no_token defaults redeem_nothing
           (world_of calm [alice] None) [0]).
  left. reflexivity.
Defined.

(** Nobody holds the token [T2]. *)
Lemma signin_get_unknown_witness :
  let w := world_of calm [alice] None in
  run [0] (signin_get defaults redeem_T2) w =
  (Ret tt,
   with_responses
     (responses w ++ [Redirect (path defaults ++ lit "/invalid")])
     (with_db_calls (db_calls w ++ [One (ByToken (lit "T2"))]) w),
   []).
Proof.
  intros w.
  apply (signin_get_unknown defaults redeem_T2 w [0] (lit "T2")).
  - reflexivity.
  - discriminate.
  - right. intros r [<-|[]]. vm_compute. discriminate.
  - apply le_n.
Defined.

(** Alice redeems [T1] next to another user. *)
Lemma signin_get_keeps_others_witness :
  let w := world_of calm [nobody; alice] None in
  exists w',
    run [0; 0] (signin_get defaults redeem_T1) w = (Ret tt, w', []) /\
    map id (db w') = [KNum 0; KNum 1] /\
    In nobody (db w').
Proof.
  intros w.
  destruct (signin_get_keeps_others defaults redeem_T1 w [0; 0] (lit "T1")
              eq_refl ltac:(discriminate) (le_n 2))
    as (w' & R & Hid & Hkeep & _).
  exists w'. split; [exact R|]. split; [exact Hid|].
  apply Hkeep; [left; reflexivity|].
  intros r0 [<-|[<-|[]]]; vm_compute; discriminate.
Defined.

(** Alice asks for a link next to another user. *)
Lemma signin_post_keeps_others_witness :
  let w := world_of calm [nobody; alice] (Some (KNum 5)) in
  exists o w',
    run [0; 0; 0] (signin_post defaults post_alice) w = (o, w', []) /\
    session_user w' = Some (KNum 5) /\
    In nobody (db w').
Proof.
  intros w.
  destruct (signin_post_keeps_others defaults post_alice w [0; 0; 0]
              (lit "alice@example.com") eq_refl
              ltac:(vm_compute; discriminate) (le_n 3))
    as (o & w' & added & R & Hs & _ & _ & Hkeep & _).
  exists o, w'. split; [exact R|]. split; [exact Hs|].
  apply Hkeep; [left; reflexivity|].
  intros r0 [<-|[<-|[]]]; vm_compute; intros; discriminate.
Defined.


(** Alice asks for a new link and then follows the old one. *)
Lemma reissue_kills_old_link_witness :
  let w := world_of calm [alice] None in
  exists o w1 w2,
    run [0; 1; 0] (signin_post defaults post_alice) w = (o, w1, []) /\
    run [0] (signin_get defaults redeem_T1) (with_env calm w1)
    = (Ret tt, w2, []) /\
    responses w2
    = responses w1 ++ [Redirect (path defaults ++ lit "/invalid")] /\
    session_user w2 = session_user w.
Proof.
  intros w.
  destruct (reissue_kills_old_link defaults post_alice redeem_T1 w
              [0; 1; 0] [0] calm (lit "alice@example.com") alice (lit "T1")
              eq_refl ltac:(vm_compute; discriminate) eq_refl eq_refl
              eq_refl eq_refl ltac:(discriminate)
              ltac:(vm_compute; discriminate)
              ltac:(intros r [<-|[]] _; reflexivity)
              eq_refl (le_n 3) (le_n 1))
    as (o & w1 & w2 & R1 & _ & R2 & Hr & Hs & _).
  exists o, w1, w2. repeat split; assumption.
Defined.

(** The user with identifier 0 follows the link. *)
Lemma falsy_id_not_signed_in_witness :
  let w := world_of calm [nobody] None in
  exists w1 w2,
    run [0; 0] (signin_get defaults redeem_T0) w = (Ret tt, w1, []) /\
    session_user w1 = Some (KNum 0) /\
    signed_in w1 = None /\
    run [] (session_get defaults) (with_env calm w1) = (Ret tt, w2, []) /\
    responses w2
    = responses w ++
      [Redirect (path defaults ++ lit "/valid");
       Json (Obj [("clientMaxAge", clientMaxAge defaults);
                  ("csrfToken", locals_csrf w)]%string)].
Proof.
  intros w.
  destruct (falsy_id_not_signed_in defaults redeem_T0 w [0; 0] [] calm
              (lit "T0") nobody eq_refl ltac:(discriminate) eq_refl
              eq_refl (le_n 2))
    as (w1 & w2 & R1 & Hs & Hn & R2 & Hr & _).
  exists w1, w2. repeat split; assumption.
Defined.

(** Alice follows the link and asks who she is. *)
Lemma redeem_then_session_witness :
  let w := world_of calm [alice] None in
  exists w1 w2,
    run [0; 0] (signin_get defaults redeem_T1) w = (Ret tt, w1, []) /\
    run [0] (session_get defaults) (with_env calm w1) = (Ret tt, w2, []) /\
    responses w2
    = responses w ++
      [Redirect (path defaults ++ lit "/valid");
       Json (Obj [("user", Obj [("name", name alice);
                                ("email", Str (email alice))]);
                  ("clientMaxAge", clientMaxAge defaults);
                  ("csrfToken", locals_csrf w)]%string)].
Proof.
  intros w.
  apply (redeem_then_session defaults redeem_T1 w [0; 0] [0] calm
           (lit "T1") alice); try reflexivity; try apply le_n.
  discriminate.
Defined.

Lemma middleware_agrees_with_session_witness :
  let w := world_of calm [alice] (Some (KNum 1)) in
  exists w1 w2 body,
    run [0] expose_user w = (Ret tt, w1, []) /\
    run [0] (session_get defaults) w = (Ret tt, w2, []) /\
    responses w2 = responses w ++ [Json body] /\
    locals_user w1 = Some (prop "user" body).
Proof.
  intros w.
  apply (middleware_agrees_with_session defaults w [0] (KNum 1) alice).
  - reflexivity.
  - reflexivity.
  - apply le_n.
Defined.

(** The mail callback first, or last. *)
Lemma issuance_order_irrelevant_witness :
  let w := world_of failing_save [alice] None in
  run [1; 0; 0] (signin_post defaults post_alice) w
  = run [0; 0; 0] (signin_post defaults post_alice) w.
Proof.
  intros w.
  apply (issuance_order_irrelevant defaults post_alice w
           [1; 0; 0] [0; 0; 0] (lit "alice@example.com")).
  - reflexivity.
  - vm_compute. discriminate.
  - apply le_n.
  - apply le_n.
Defined.

(** The Host header [example.com:3000]. *)
Lemma from_address_without_port_witness :
  let w := world_of calm [alice] None in
  exists w' m d rest,
    run [0; 0; 0] (signin_post defaults post_alice) w = (Ret tt, w', []) /\
    outbox w' = outbox w ++ [m] /\
    mail_to m = lit "alice@example.com" /\
    mail_subject m = lit "Sign in link" /\
    mail_from m = lit "noreply@" ++ d /\
    lit "example.com:3000" = d ++ rest /\
    ~ In 58%N d /\
    (rest = [] \/ hd_error rest = Some 58%N).
Proof.
  intros w.
  apply (from_address_without_port defaults post_alice w [0; 0; 0]
           (lit "alice@example.com") (lit "example.com:3000")).
  - reflexivity.
  - vm_compute. discriminate.
  - reflexivity.
  - apply le_n.
Defined.

Lemma mailed_link_witness :
  let w := world_of calm [alice] None in
  exists w' m,
    run [0; 0; 0] (signin_post defaults post_alice) w = (Ret tt, w', []) /\
    outbox w' = outbox w ++ [m] /\
    mail_text m
    = lit "Use the link below to sign in:" ++ [10; 10]%N
      ++ match opt_serverUrl defaults with
         | Some (c :: s) => c :: s
         | _ => lit "http://" ++ lit "example.com:3000"
         end
      ++ str_or (opt_path defaults) (lit "/auth")
      ++ lit "/email/signin/" ++ uuid_v4 (env w)
      ++ [10; 10]%N.
Proof.
  intros w.
  apply (mailed_link defaults post_alice w [0; 0; 0]
           (lit "alice@example.com") (lit "example.com:3000")).
  - reflexivity.
  - vm_compute. discriminate.
  - reflexivity.
  - apply le_n.
Defined.

